(** * Code_duel_backend: leaderboard cache and ranking

    A shallow embedding of

    - [src/config/redis.js]            (module [Redis]),
    - [src/services/cache.service.js]  (module [Cache]),
    - the dashboard controller         (module [Dashboard]),
    - [src/config/env.js]              (module [Env]),

    followed by the properties of the two-tier leaderboard cache and of
    the ranking and aggregation step.

    Conventions.  JavaScript values are modelled by the tree type
    [value]; an expression that may throw has type [outcome]; the module
    level variables of the JavaScript files ([memoryCache],
    [redisClient], [isConnected]) are fields of an explicit state that
    every operation threads.  [Date.now()] is an explicit argument
    [now] (milliseconds).  Calls to the logger are not modelled.  An
    [await] is modelled as the call it waits for: the interleaving of
    two concurrent requests is outside the model.  A JavaScript number
    that holds a count is an integer; the completion rate is a binary64
    number (module [JSNumber]). *)

From Stdlib Require Import ZArith QArith Qround Qpower Qabs.
From Stdlib Require Import String Ascii List Lia Lqa.
From Corelib Require PrimInt63 Uint63Axioms PrimFloat FloatOps SpecFloat.
From stdpp Require Import base option gmap strings list sorting.

Close Scope Q_scope.
Set Warnings "-register-all".
Local Open Scope Z_scope.

(** ** JavaScript values and completions *)

Inductive value : Type :=
| VNull
| VBool (b : bool)
| VNum (n : Z)
| VStr (s : string)
| VArr (items : list value)
| VObj (fields : list (string * value)).

(** [if (v)] in JavaScript. Arrays and objects are truthy, also when
    empty. *)
Definition truthy (v : value) : bool :=
  match v with
  | VNull => false
  | VBool b => b
  | VNum n => negb (n =? 0)
  | VStr s => negb (String.eqb s "")
  | VArr _ => true
  | VObj _ => true
  end.

(** The result of evaluating an expression: a value, or a thrown error
    carrying its message. *)
Inductive outcome (A : Type) : Type :=
| Returns (a : A)
| Throws (err : string).
Arguments Returns {A} a.
Arguments Throws {A} err.

Definition raises {A} (o : outcome A) : bool :=
  match o with Returns _ => false | Throws _ => true end.

(** [JSON.stringify] and [JSON.parse] belong to the JavaScript engine;
    the cache service is written against this interface. [JSON_parse]
    throws a [SyntaxError] on a malformed text. *)
Class JSONCodec : Type := {
  JSON_stringify : value -> string;
  JSON_parse : string -> outcome value
}.

(** The commands of the durable cache client that the service uses:
    [get(key)], [set(key, payload, "EX", ttl)] and [del(key)]. [R] is
    the state behind the client handle (the remote service, the network
    and whatever else decides the answer); every command may throw. *)
Class RedisClient (R : Type) : Type := {
  client_get : string -> R -> outcome (option string) * R;
  client_set : string -> string -> Z -> R -> outcome unit * R;
  client_del : string -> R -> outcome unit * R
}.

(** ** src/config/redis.js *)

Module Redis.

(** Connection lifecycle events the module subscribes to. *)
Inductive event : Type := Connect | Error | Close.

(** [let redisClient = null; let isConnected = false;] *)
Record state (R : Type) : Type := mkState {
  redisClient : option R;
  isConnected : bool
}.
Arguments mkState {R} _ _.
Arguments redisClient {R} _.
Arguments isConnected {R} _.

(** [retryStrategy(times)]: [None] is the JavaScript [null], which
    stops the client from reconnecting. *)
Definition retryStrategy (times : Z) : option Z :=
  if 3 <? times then None
  else Some (Z.min (times * 500) 2000).

(** [createRedisClient]: the constructor either yields a client or
    throws, in which case the [catch] block resets both variables. The
    connection attempt is not awaited, so [isConnected] is still false
    when the function returns. *)
Definition createRedisClient {R} (constructed : outcome R) : state R :=
  match constructed with
  | Returns r => mkState (Some r) false
  | Throws _ => mkState None false
  end.

(** The three [redisClient.on(...)] handlers. *)
Definition on_event {R} (e : event) (s : state R) : state R :=
  match e with
  | Connect => mkState (redisClient s) true
  | Error => mkState (redisClient s) false
  | Close => mkState (redisClient s) false
  end.

(** [redisClient !== null && isConnected] *)
Definition isRedisReady {R} (s : state R) : bool :=
  match redisClient s with
  | Some _ => isConnected s
  | None => false
  end.

Definition getRedisClient {R} (s : state R) : option R := redisClient s.

(** [disconnectRedis]: [if (redisClient) { try { await
    redisClient.quit() } catch (err) { ... } }]. [quit] is the client's
    command; its failure is logged, not thrown. The variables of the
    module are not assigned. *)
Definition disconnectRedis {R} (quit : R -> outcome unit * R) (s : state R)
  : outcome unit * state R :=
  match redisClient s with
  | Some r =>
      match quit r with
      | (Returns _, r') => (Returns tt, mkState (Some r') (isConnected s))
      | (Throws _, r') => (Returns tt, mkState (Some r') (isConnected s))
      end
  | None => (Returns tt, s)
  end.

End Redis.

(** ** The reconnect loop of the client library

    The loop that calls [retryStrategy] is the client library's, not the
    repository's. It is modelled after the library's documented
    contract: every lost or failed connection emits [error] and [close],
    then the strategy is called with the number of consecutive attempts;
    a number is a delay after which the client connects again, [null]
    ends the client for good; a successful connection emits [connect]
    and resets the count. *)

Module Ioredis.

Inductive status : Type :=
| Connecting
| Ready
| Waiting (delay : Z)
| Ended.

Record client : Type := mkClient {
  st : status;
  retryAttempts : Z
}.

(** What the network does to the client. *)
Inductive stimulus : Type :=
| Established     (* the pending connection succeeds *)
| Lost            (* the pending or current connection fails *)
| TimerFired.     (* the reconnect delay elapses *)

(** One step of the library: the new client state and the events it
    emits, in order. *)
Definition step (c : client) (i : stimulus) : client * list Redis.event :=
  match st c, i with
  | Connecting, Established => (mkClient Ready 0, [Redis.Connect])
  | Connecting, Lost
  | Ready, Lost =>
      let times := retryAttempts c + 1 in
      match Redis.retryStrategy times with
      | Some delay => (mkClient (Waiting delay) times, [Redis.Error; Redis.Close])
      | None => (mkClient Ended times, [Redis.Error; Redis.Close])
      end
  | Waiting _, TimerFired => (mkClient Connecting (retryAttempts c), [])
  | _, _ => (c, [])
  end.

(** The library and the module of [redis.js] side by side: the events
    of a step run the module's handlers. *)
Definition deliver {R} (es : list Redis.event) (s : Redis.state R) : Redis.state R :=
  fold_left (fun acc e => Redis.on_event e acc) es s.

Definition run_step {R} (cs : client * Redis.state R) (i : stimulus)
  : client * Redis.state R :=
  let '(c', es) := step (fst cs) i in (c', deliver es (snd cs)).

Definition run {R} (cs : client * Redis.state R) (stims : list stimulus)
  : client * Redis.state R :=
  fold_left run_step stims cs.

(** The delays scheduled along a run. *)
Fixpoint delays (c : client) (stims : list stimulus) : list Z :=
  match stims with
  | [] => []
  | i :: rest =>
      let c' := fst (step c i) in
      match st c, st c' with
      | Waiting _, _ => delays c' rest
      | _, Waiting d => d :: delays c' rest
      | _, _ => delays c' rest
      end
  end.

(** Module load: [createRedisClient()] then [redisClient.connect()]. *)
Definition start {R} (constructed : outcome R) : client * Redis.state R :=
  (mkClient Connecting 0, Redis.createRedisClient constructed).

End Ioredis.

(** ** src/services/cache.service.js *)

Module Cache.

Definition CACHE_PREFIX : string := "leaderboard:".
Definition DEFAULT_TTL : Z := 60.

(** A record of [memoryCache]: [{ data, expiresAt }]. *)
Record cacheEntry : Type := mkEntry {
  data : value;
  expiresAt : Z
}.

(** [`${CACHE_PREFIX}${challengeId}`] *)
Definition buildKey (challengeId : string) : string :=
  CACHE_PREFIX +:+ challengeId.

(** [memoryGet]: the value (or [null]) and the map after the lazy
    eviction. *)
Definition memoryGet (now : Z) (key : string) (m : gmap string cacheEntry)
  : value * gmap string cacheEntry :=
  match m !! key with
  | None => (VNull, m)
  | Some entry =>
      if expiresAt entry <? now then (VNull, delete key m)
      else (data entry, m)
  end.

Definition memorySet (now : Z) (key : string) (d : value) (ttl : Z)
  (m : gmap string cacheEntry) : gmap string cacheEntry :=
  <[key := mkEntry d (now + ttl * 1000)]> m.

Definition memoryDel (key : string) (m : gmap string cacheEntry)
  : gmap string cacheEntry :=
  delete key m.

Section Service.
Context {codec : JSONCodec} {R : Type} {client : RedisClient R}.

(** The state the service runs in: its own [memoryCache] and the
    variables of [redis.js]. *)
Record world : Type := mkWorld {
  memoryCache : gmap string cacheEntry;
  redis : Redis.state R
}.

(** Computations that read and write the [world] and may throw. *)
Definition M (A : Type) : Type := world -> outcome A * world.

Definition ret {A} (a : A) : M A := fun w => (Returns a, w).

Definition throw {A} (err : string) : M A := fun w => (Throws err, w).

Definition bind {A B} (c : M A) (k : A -> M B) : M B :=
  fun w =>
    match c w with
    | (Returns a, w') => k a w'
    | (Throws err, w') => (Throws err, w')
    end.

(** [try { body } catch (err) { handler }] *)
Definition try_catch {A} (body : M A) (handler : string -> M A) : M A :=
  fun w =>
    match body w with
    | (Returns a, w') => (Returns a, w')
    | (Throws err, w') => handler err w'
    end.

Definition lift_outcome {A} (o : outcome A) : M A := fun w => (o, w).

Notation "'do' x <- c ;; k" := (bind c (fun x => k))
  (at level 10, x name, c at level 99, k at level 200).
Notation "'exec' c ;; k" := (bind c (fun _ => k))
  (at level 10, c at level 99, k at level 200).

(** [isRedisReady()] *)
Definition isRedisReady : M bool :=
  fun w => (Returns (Redis.isRedisReady (redis w)), w).

(** [getRedisClient().cmd(...)]: on a [null] client the property access
    throws a [TypeError]. *)
Definition with_client {A} (cmd : R -> outcome A * R) : M A :=
  fun w =>
    match Redis.getRedisClient (redis w) with
    | None => (Throws "TypeError: Cannot read properties of null", w)
    | Some r =>
        let '(o, r') := cmd r in
        (o, mkWorld (memoryCache w)
                    (Redis.mkState (Some r') (Redis.isConnected (redis w))))
    end.

Definition mem_get (now : Z) (key : string) : M value :=
  fun w =>
    let '(v, m') := memoryGet now key (memoryCache w) in
    (Returns v, mkWorld m' (redis w)).

Definition mem_set (now : Z) (key : string) (d : value) (ttl : Z) : M unit :=
  fun w => (Returns tt, mkWorld (memorySet now key d ttl (memoryCache w)) (redis w)).

Definition mem_del (key : string) : M unit :=
  fun w => (Returns tt, mkWorld (memoryDel key (memoryCache w)) (redis w)).

(** The [try] block of [getLeaderboardCache]. [Some v] is [return v]
    from inside the block. *)
Definition redis_read (key : string) : M (option value) :=
  do d <- with_client (client_get key) ;;
  match d with
  | Some payload =>
      if negb (String.eqb payload "")
      then (do v <- lift_outcome (JSON_parse payload) ;; ret (Some v))
      else ret (Some VNull)
  | None => ret (Some VNull)
  end.

(** [getLeaderboardCache(challengeId)]; [VNull] is the [null] of a
    cache miss. *)
Definition getLeaderboardCache (now : Z) (challengeId : string) : M value :=
  let key := buildKey challengeId in
  do ready <- isRedisReady ;;
  do returned <- (if ready : bool
               then try_catch (redis_read key) (fun _ => ret None)
               else ret None) ;;
  match returned with
  | Some v => ret v
  | None =>
      do memData <- mem_get now key ;;
      if truthy memData then ret memData else ret VNull
  end.

(** [setLeaderboardCache(challengeId, data, ttl = DEFAULT_TTL)]; an
    omitted [ttl] is [None]. *)
Definition setLeaderboardCache (now : Z) (challengeId : string) (d : value)
  (ttl : option Z) : M unit :=
  let ttl := default DEFAULT_TTL ttl in
  let key := buildKey challengeId in
  exec mem_set now key d ttl ;;
  do ready <- isRedisReady ;;
  if ready : bool
  then try_catch (with_client (client_set key (JSON_stringify d) ttl))
                 (fun _ => ret tt)
  else ret tt.

(** [invalidateLeaderboardCache(challengeId)] *)
Definition invalidateLeaderboardCache (challengeId : string) : M unit :=
  let key := buildKey challengeId in
  exec mem_del key ;;
  do ready <- isRedisReady ;;
  if ready : bool
  then try_catch (with_client (client_del key)) (fun _ => ret tt)
  else ret tt.

(** A connection event reaching the handlers of [redis.js] between two
    calls of the service. *)
Definition deliver (e : Redis.event) (w : world) : world :=
  mkWorld (memoryCache w) (Redis.on_event e (redis w)).

End Service.

Arguments world R : clear implicits.
Arguments mkWorld {R} _ _.
Arguments memoryCache {R} _.
Arguments redis {R} _.

End Cache.

(** ** JavaScript numbers

    A JavaScript number is an IEEE 754 binary64 value: a finite value,
    an infinity or [NaN].  A finite value is modelled by the rational
    it denotes; every arithmetic operation computes the exact result
    and rounds it to the nearest binary64 value, ties to the even
    significand ([fl]).  The sign of a zero is not modelled: a zero is
    read as [+0]. *)

Module JSNumber.

Inductive number : Type :=
| Finite (q : Q)
| Infinite (negative : bool)
| NaN.

Definition pow2 (k : Z) : Q := Qpower 2 k.

(** For [0 < q], the exponent [e] with [2^e <= q < 2^(e+1)]. *)
Definition ilog2 (q : Q) : Z :=
  let k := Z.log2 (Qnum q) - Z.log2 (Zpos (Qden q)) in
  if Qle_bool (pow2 k) q then k else k - 1.

(** Rounding to the nearest integer, ties to the even one. *)
Definition rne (x : Q) : Z :=
  let f := Qfloor x in
  match Qcompare (x - inject_Z f) (1 # 2) with
  | Lt => f
  | Gt => f + 1
  | Eq => if Z.even f then f else f + 1
  end.

(** The exponent of the last place of the binary64 values next to
    [q]: 53 significant bits, and [2^-1074] for subnormal values. *)
Definition shift (q : Q) : Z := Z.max (ilog2 q - 52) (-1074).

Definition round_pos (q : Q) : Q :=
  (inject_Z (rne (q / pow2 (shift q))) * pow2 (shift q))%Q.

Definition fl_value (q : Q) : Q :=
  match Qcompare q 0 with
  | Eq => 0%Q
  | Gt => round_pos q
  | Lt => (- round_pos (- q))%Q
  end.

(** A result that rounds to [2^1024] or more overflows. *)
Definition fl (q : Q) : number :=
  let v := fl_value q in
  if Qle_bool (pow2 1024) (Qabs v) then Infinite (negb (Qle_bool 0 v))
  else Finite v.

(** An integer below [2^53], such as the length of an array. *)
Definition of_Z (n : Z) : number := Finite (inject_Z n).

Definition is_zero (q : Q) : bool := Qeq_bool q 0.
Definition is_negative (q : Q) : bool := negb (Qle_bool 0 q).

(** [x / y] *)
Definition div (x y : number) : number :=
  match x, y with
  | NaN, _ | _, NaN => NaN
  | Infinite _, Infinite _ => NaN
  | Infinite s, Finite b => Infinite (xorb s (is_negative b))
  | Finite _, Infinite _ => Finite 0
  | Finite a, Finite b =>
      if is_zero b then
        if is_zero a then NaN else Infinite (is_negative a)
      else fl (a / b)
  end.

(** [x * y] *)
Definition mul (x y : number) : number :=
  match x, y with
  | NaN, _ | _, NaN => NaN
  | Infinite s, Infinite s' => Infinite (xorb s s')
  | Infinite s, Finite b | Finite b, Infinite s =>
      if is_zero b then NaN else Infinite (xorb s (is_negative b))
  | Finite a, Finite b => fl (a * b)
  end.

End JSNumber.

(** *** The processor's binary64 arithmetic

    The primitive floating-point numbers of Rocq are binary64 values
    computed by the processor, as JavaScript's numbers are.
    [Float64.agree c t] evaluates [(c / t) * 100] with them and with
    [JSNumber], and compares the two results. *)

Module Float64.

Definition value (f : PrimFloat.float) : option Q :=
  match FloatOps.Prim2SF f with
  | SpecFloat.S754_zero _ => Some 0%Q
  | SpecFloat.S754_finite s m e =>
      Some ((if s then -1 else 1) * inject_Z (Zpos m) * JSNumber.pow2 e)%Q
  | _ => None
  end.

Definition of_Z (n : Z) : PrimFloat.float :=
  PrimFloat.of_uint63 (Uint63Axioms.of_Z n).

Definition rate (c t : Z) : PrimFloat.float :=
  PrimFloat.mul (PrimFloat.div (of_Z c) (of_Z t)) (of_Z 100).

Definition agree (c t : Z) : bool :=
  match JSNumber.mul (JSNumber.div (JSNumber.of_Z c) (JSNumber.of_Z t))
                     (JSNumber.of_Z 100),
        value (rate c t) with
  | JSNumber.Finite q, Some q' => Qeq_bool q q'
  | _, _ => false
  end.

(** [1; ...; n] *)
Fixpoint upto (n : nat) : list Z :=
  match n with
  | O => []
  | S k => upto k ++ [Z.of_nat n]
  end.

(** Every [c] of [t] with [0 <= c <= t], for each [t] of [days]. *)
Definition agree_for (days : list Z) : bool :=
  forallb (fun t => forallb (fun c => agree c t) (0 :: upto (Z.to_nat t)))
          days.

End Float64.

(** ** The dashboard controller *)

Module Dashboard.

(** Rows of the persistence layer, with the columns the controller
    reads. *)
Module Member.
Record t : Type := mk {
  id : string;
  challengeId : string;
  isActive : bool;
  currentStreak : Z;
  longestStreak : Z;
  totalPenalties : Z;
  username : string;            (* user.username *)
  leetcodeUsername : string     (* user.leetcodeUsername *)
}.
End Member.

Module Result.
Record t : Type := mk {
  memberId : string;
  completed : bool;
  submissionsCount : Z
}.
End Result.

Record database : Type := mkDatabase {
  challengeMember : list Member.t;
  dailyResult : list Result.t
}.

(** [orderBy: [{currentStreak: "desc"}, {longestStreak: "desc"},
    {totalPenalties: "asc"}]]: [a] may be placed before [b]. *)
Definition orderBy (a b : Member.t) : Prop :=
  Member.currentStreak b < Member.currentStreak a
  ∨ (Member.currentStreak a = Member.currentStreak b
     ∧ (Member.longestStreak b < Member.longestStreak a
        ∨ (Member.longestStreak a = Member.longestStreak b
           ∧ Member.totalPenalties a ≤ Member.totalPenalties b))).

#[global] Instance orderBy_dec a b : Decision (orderBy a b).
Proof. unfold orderBy. apply _. Defined.

(** [prisma.challengeMember.findMany({ where: { challengeId, isActive:
    true }, orderBy })]. The query engine is the persistence layer's;
    its contract is modelled as: keep the rows matching [where], sort
    them by [orderBy]. *)
Definition findMany_challengeMember (db : database) (challengeId : string)
  : list Member.t :=
  merge_sort orderBy
    (List.filter
       (fun m => String.eqb (Member.challengeId m) challengeId && Member.isActive m)
       (challengeMember db)).

(** [prisma.dailyResult.findMany({ where: { memberId } })] *)
Definition findMany_dailyResult (db : database) (memberId : string)
  : list Result.t :=
  List.filter (fun r => String.eqb (Result.memberId r) memberId) (dailyResult db).

(** [array.length] and [array.filter((r) => r.completed).length] *)
Definition countTotal (results : list Result.t) : Z :=
  Z.of_nat (length results).

Definition countCompleted (results : list Result.t) : Z :=
  Z.of_nat (length (List.filter Result.completed results)).

(** [totalDays > 0 ? (completedDays / totalDays) * 100 : 0], in binary64
    arithmetic: the quotient is rounded, and so is the product. *)
Definition completionRate (completedDays totalDays : Z) : JSNumber.number :=
  if 0 <? totalDays
  then JSNumber.mul
         (JSNumber.div (JSNumber.of_Z completedDays) (JSNumber.of_Z totalDays))
         (JSNumber.of_Z 100)
  else JSNumber.of_Z 0.

(** *** [Number.prototype.toFixed(2)]

    For a finite number, the integer [n] for which [n / 100] is closest
    to the value of the number, the larger one on a tie, printed with
    two digits after the point; a negative number is printed as ["-"]
    followed by its absolute value. (Numbers of [1e21] and more,
    printed in exponent form, are not in the range of a rate.) *)

Definition digit (d : Z) : ascii := ascii_of_nat (48 + Z.to_nat d).

Fixpoint decimal_aux (fuel : nat) (n : Z) (acc : string) : string :=
  let acc' := String (digit (n mod 10)) acc in
  match fuel with
  | O => acc'
  | S fuel' => if n <? 10 then acc' else decimal_aux fuel' (n / 10) acc'
  end.

(** Decimal digits of a natural number. *)
Definition decimal (n : Z) : string :=
  decimal_aux (Z.to_nat (Z.log2 n)) n "".

(** The hundredths that [toFixed(2)] prints for a non-negative [x]. *)
Definition hundredths (x : Q) : Z := Qfloor (x * 100 + (1 # 2))%Q.

Definition render_hundredths (n : Z) : string :=
  decimal (n / 100)
  +:+ String "." (String (digit (n / 10 mod 10)) (String (digit (n mod 10)) "")).

Definition toFixed2 (x : JSNumber.number) : string :=
  match x with
  | JSNumber.NaN => "NaN"
  | JSNumber.Infinite false => "Infinity"
  | JSNumber.Infinite true => "-Infinity"
  | JSNumber.Finite q =>
      if Qle_bool 0 q then render_hundredths (hundredths q)
      else "-" +:+ render_hundredths (hundredths (- q))
  end.

(** *** Leaderboard *)

Module Entry.
Record t : Type := mk {
  username : string;
  leetcodeUsername : string;
  currentStreak : Z;
  longestStreak : Z;
  totalPenalties : Z;
  completedDays : Z;
  totalDays : Z;
  completionRate : string
}.
End Entry.

(** The body of [members.map(async (member) => ...)]. *)
Definition leaderboardEntry (db : database) (member : Member.t) : Entry.t :=
  let results := findMany_dailyResult db (Member.id member) in
  let totalDays := countTotal results in
  let completedDays := countCompleted results in
  let rate := completionRate completedDays totalDays in
  Entry.mk (Member.username member) (Member.leetcodeUsername member)
           (Member.currentStreak member) (Member.longestStreak member)
           (Member.totalPenalties member)
           completedDays totalDays (toFixed2 rate).

(** The ranking step of [getChallengeLeaderboard]: [Promise.all] over
    [map] keeps the order of [members]. *)
Definition leaderboard (db : database) (challengeId : string) : list Entry.t :=
  map (leaderboardEntry db) (findMany_challengeMember db challengeId).

(** The entry as the JavaScript object the controller builds. *)
Definition entry_value (e : Entry.t) : value :=
  VObj [ ("username", VStr (Entry.username e));
         ("leetcodeUsername", VStr (Entry.leetcodeUsername e));
         ("currentStreak", VNum (Entry.currentStreak e));
         ("longestStreak", VNum (Entry.longestStreak e));
         ("totalPenalties", VNum (Entry.totalPenalties e));
         ("completedDays", VNum (Entry.completedDays e));
         ("totalDays", VNum (Entry.totalDays e));
         ("completionRate", VStr (Entry.completionRate e)) ].

(** *** Challenge progress *)

Module Stats.
Record t : Type := mk {
  currentStreak : Z;
  longestStreak : Z;
  totalPenalties : Z;
  totalDays : Z;
  completedDays : Z;
  failedDays : Z;
  completionRate : string
}.
End Stats.

(** The [stats] object of [getChallengeProgress], from the membership
    and the daily results the evaluation service returned. *)
Definition progressStats (membership : Member.t) (dailyResults : list Result.t)
  : Stats.t :=
  let totalDays := countTotal dailyResults in
  let completedDays := countCompleted dailyResults in
  let failedDays := totalDays - completedDays in
  let rate := completionRate completedDays totalDays in
  Stats.mk (Member.currentStreak membership) (Member.longestStreak membership)
           (Member.totalPenalties membership)
           totalDays completedDays failedDays (toFixed2 rate).

Definition stats_value (s : Stats.t) : value :=
  VObj [ ("currentStreak", VNum (Stats.currentStreak s));
         ("longestStreak", VNum (Stats.longestStreak s));
         ("totalPenalties", VNum (Stats.totalPenalties s));
         ("totalDays", VNum (Stats.totalDays s));
         ("completedDays", VNum (Stats.completedDays s));
         ("failedDays", VNum (Stats.failedDays s));
         ("completionRate", VStr (Stats.completionRate s)) ].

(** [object.name] on an object value. *)
Fixpoint lookup_field (name : string) (fields : list (string * value))
  : option value :=
  match fields with
  | [] => None
  | (k, v) :: rest => if String.eqb k name then Some v else lookup_field name rest
  end.

Definition property (name : string) (v : value) : option value :=
  match v with
  | VObj fields => lookup_field name fields
  | _ => None
  end.

(** [getChallengeLeaderboard], up to the payload of the response: the
    cached value when there is one, else the ranking, stored with the
    default TTL. [now_get] and [now_set] are the times of the two cache
    calls. *)
Definition getChallengeLeaderboard {codec : JSONCodec} {R} {client : RedisClient R}
  (db : database) (now_get now_set : Z) (challengeId : string)
  : Cache.M (R := R) value :=
  Cache.bind (Cache.getLeaderboardCache now_get challengeId) (fun cachedData =>
    if truthy cachedData then Cache.ret cachedData
    else
      let board := VArr (map entry_value (leaderboard db challengeId)) in
      Cache.bind (Cache.setLeaderboardCache now_set challengeId board None)
                 (fun _ => Cache.ret board)).

End Dashboard.

(** ** src/config/env.js

    [process.env], after [dotenv.config()], is a finite map from
    variable names to strings. *)

Module Env.

(** [config]: the object built at module load. [port] is the string of
    [PORT] or the number [3000]; the three variables without a default
    are [undefined] ([None]) when unset. *)
Record settings : Type := mkSettings {
  port : value;
  nodeEnv : string;
  databaseUrl : option string;
  jwtSecret : option string;
  jwtExpiresIn : string;
  encryptionKey : option string;
  leetcodeGraphqlUrl : string;
  cronEnabled : bool;
  dailyEvaluationTime : string;
  corsOrigin : string;
  redisUrl : string
}.

(** [!v] for a variable: unset and empty are both falsy. *)
Definition falsy (v : option string) : bool :=
  match v with
  | Some s => String.eqb s ""
  | None => true
  end.

(** [process.env.X || fallback] *)
Definition or_default (v : option string) (fallback : string) : string :=
  match v with
  | Some s => if falsy v then fallback else s
  | None => fallback
  end.

Definition config (env : gmap string string) : settings :=
  {| port := if falsy (env !! "PORT") then VNum 3000
             else VStr (default "" (env !! "PORT"));
     nodeEnv := or_default (env !! "NODE_ENV") "development";
     databaseUrl := env !! "DATABASE_URL";
     jwtSecret := env !! "JWT_SECRET";
     jwtExpiresIn := or_default (env !! "JWT_EXPIRES_IN") "7d";
     encryptionKey := env !! "ENCRYPTION_KEY";
     leetcodeGraphqlUrl :=
       or_default (env !! "LEETCODE_GRAPHQL_URL") "https://leetcode.com/graphql";
     cronEnabled :=
       match env !! "CRON_ENABLED" with
       | Some s => String.eqb s "true"
       | None => false
       end;
     dailyEvaluationTime := or_default (env !! "DAILY_EVALUATION_TIME") "0 1 * * *";
     corsOrigin := or_default (env !! "CORS_ORIGIN") "*";
     redisUrl := or_default (env !! "REDIS_URL") "redis://localhost:6379" |}.

Definition required : list string := ["databaseUrl"; "jwtSecret"; "encryptionKey"].

(** [config[key]], for the keys [validateConfig] reads. *)
Definition field (c : settings) (key : string) : option string :=
  if String.eqb key "databaseUrl" then databaseUrl c
  else if String.eqb key "jwtSecret" then jwtSecret c
  else if String.eqb key "encryptionKey" then encryptionKey c
  else None.

(** [validateConfig] *)
Definition validateConfig (c : settings) : outcome unit :=
  let missing := List.filter (fun key => falsy (field c key)) required in
  if (0 <? length missing)%nat
  then Throws ("Missing required environment variables: "
               +:+ String.concat ", " missing)
  else Returns tt.

End Env.

(** ** Executable stand-ins for the two external interfaces

    Used to run the service on concrete inputs. [MiniJSON] is the JSON
    text format restricted to integers and to strings whose only
    escapes are the quote and the backslash; [Table] is a key/value
    service with expiry that refuses every command while offline. *)

Module MiniJSON.

Definition dq : ascii := ascii_of_nat 34.
Definition bs : ascii := ascii_of_nat 92.

Fixpoint escape (s : string) : string :=
  match s with
  | EmptyString => EmptyString
  | String c rest =>
      if Ascii.eqb c dq || Ascii.eqb c bs
      then String bs (String c (escape rest))
      else String c (escape rest)
  end.

Definition quote (s : string) : string :=
  String dq (escape s +:+ String dq EmptyString).

Definition number (n : Z) : string :=
  if n <? 0 then "-" +:+ Dashboard.decimal (- n) else Dashboard.decimal n.

Fixpoint stringify (v : value) : string :=
  match v with
  | VNull => "null"
  | VBool true => "true"
  | VBool false => "false"
  | VNum n => number n
  | VStr s => quote s
  | VArr items =>
      "[" +:+ (fix go (l : list value) : string :=
                 match l with
                 | [] => ""
                 | x :: rest =>
                     match rest with
                     | [] => stringify x
                     | _ => stringify x +:+ "," +:+ go rest
                     end
                 end) items +:+ "]"
  | VObj fields =>
      "{" +:+ (fix go (l : list (string * value)) : string :=
                 match l with
                 | [] => ""
                 | (k, x) :: rest =>
                     match rest with
                     | [] => quote k +:+ ":" +:+ stringify x
                     | _ => quote k +:+ ":" +:+ stringify x +:+ "," +:+ go rest
                     end
                 end) fields +:+ "}"
  end.

Definition is_ws (c : ascii) : bool :=
  Ascii.eqb c " " || Ascii.eqb c (ascii_of_nat 10)
  || Ascii.eqb c (ascii_of_nat 13) || Ascii.eqb c (ascii_of_nat 9).

Fixpoint skip_ws (s : string) : string :=
  match s with
  | String c rest => if is_ws c then skip_ws rest else s
  | EmptyString => s
  end.

Fixpoint strip_prefix (p s : string) : option string :=
  match p, s with
  | EmptyString, _ => Some s
  | String a p', String b s' => if Ascii.eqb a b then strip_prefix p' s' else None
  | _, _ => None
  end.

(** The text after an opening quote: the string and what follows its
    closing quote. *)
Fixpoint parse_string_body (s : string) : option (string * string) :=
  match s with
  | EmptyString => None
  | String c rest =>
      if Ascii.eqb c dq then Some (EmptyString, rest)
      else if Ascii.eqb c bs then
        match rest with
        | String e rest' =>
            if Ascii.eqb e dq || Ascii.eqb e bs then
              match parse_string_body rest' with
              | Some (str, r) => Some (String e str, r)
              | None => None
              end
            else None
        | EmptyString => None
        end
      else
        match parse_string_body rest with
        | Some (str, r) => Some (String c str, r)
        | None => None
        end
  end.

Definition digit_value (c : ascii) : option Z :=
  let n := Z.of_nat (nat_of_ascii c) in
  if (48 <=? n) && (n <=? 57) then Some (n - 48) else None.

Fixpoint parse_digits (s : string) (acc : Z) : Z * string :=
  match s with
  | String c rest =>
      match digit_value c with
      | Some d => parse_digits rest (acc * 10 + d)
      | None => (acc, s)
      end
  | EmptyString => (acc, s)
  end.

Definition parse_natural (s : string) : option (Z * string) :=
  match s with
  | String c _ =>
      match digit_value c with
      | Some _ => Some (parse_digits s 0)
      | None => None
      end
  | EmptyString => None
  end.

Fixpoint parse_value (fuel : nat) (s : string) : option (value * string) :=
  match fuel with
  | O => None
  | S fuel' =>
      match skip_ws s with
      | EmptyString => None
      | String c rest =>
          if Ascii.eqb c "[" then
            match skip_ws rest with
            | String c' rest' =>
                if Ascii.eqb c' "]" then Some (VArr [], rest')
                else match parse_items fuel' rest with
                     | Some (items, r) => Some (VArr items, r)
                     | None => None
                     end
            | EmptyString => None
            end
          else if Ascii.eqb c "{" then
            match skip_ws rest with
            | String c' rest' =>
                if Ascii.eqb c' "}" then Some (VObj [], rest')
                else match parse_members fuel' rest with
                     | Some (fields, r) => Some (VObj fields, r)
                     | None => None
                     end
            | EmptyString => None
            end
          else if Ascii.eqb c dq then
            match parse_string_body rest with
            | Some (str, r) => Some (VStr str, r)
            | None => None
            end
          else if Ascii.eqb c "-" then
            match parse_natural rest with
            | Some (n, r) => Some (VNum (- n), r)
            | None => None
            end
          else
            match parse_natural (String c rest) with
            | Some (n, r) => Some (VNum n, r)
            | None =>
                match strip_prefix "null" (String c rest) with
                | Some r => Some (VNull, r)
                | None =>
                    match strip_prefix "true" (String c rest) with
                    | Some r => Some (VBool true, r)
                    | None =>
                        match strip_prefix "false" (String c rest) with
                        | Some r => Some (VBool false, r)
                        | None => None
                        end
                    end
                end
            end
      end
  end
with parse_items (fuel : nat) (s : string) : option (list value * string) :=
  match fuel with
  | O => None
  | S fuel' =>
      match parse_value fuel' s with
      | Some (v, r) =>
          match skip_ws r with
          | String c r' =>
              if Ascii.eqb c "," then
                match parse_items fuel' r' with
                | Some (vs, r'') => Some (v :: vs, r'')
                | None => None
                end
              else if Ascii.eqb c "]" then Some ([v], r')
              else None
          | EmptyString => None
          end
      | None => None
      end
  end
with parse_members (fuel : nat) (s : string)
  : option (list (string * value) * string) :=
  match fuel with
  | O => None
  | S fuel' =>
      match skip_ws s with
      | String q afterq =>
          if Ascii.eqb q dq then
            match parse_string_body afterq with
            | Some (k, r0) =>
                match skip_ws r0 with
                | String colon r1 =>
                    if Ascii.eqb colon ":" then
                      match parse_value fuel' r1 with
                      | Some (v, r) =>
                          match skip_ws r with
                          | String c r' =>
                              if Ascii.eqb c "," then
                                match parse_members fuel' r' with
                                | Some (fs, r'') => Some ((k, v) :: fs, r'')
                                | None => None
                                end
                              else if Ascii.eqb c "}" then Some ([(k, v)], r')
                              else None
                          | EmptyString => None
                          end
                      | None => None
                      end
                    else None
                | EmptyString => None
                end
            | None => None
            end
          else None
      | EmptyString => None
      end
  end.

Definition parse (s : string) : outcome value :=
  match parse_value (2 * String.length s + 2) s with
  | Some (v, rest) =>
      match skip_ws rest with
      | EmptyString => Returns v
      | String _ _ => Throws "SyntaxError: Unexpected non-whitespace character after JSON"
      end
  | None => Throws "SyntaxError: Unexpected token"
  end.

Definition codec : JSONCodec :=
  {| JSON_stringify := stringify; JSON_parse := parse |}.

End MiniJSON.

Module Table.

Record server : Type := mkServer {
  table : gmap string (string * Z);   (* key to payload and expiry time *)
  clock : Z;
  online : bool
}.

Definition get (key : string) (r : server) : outcome (option string) * server :=
  if online r then
    (Returns match table r !! key with
             | Some (payload, expiry) =>
                 if clock r <? expiry then Some payload else None
             | None => None
             end, r)
  else (Throws "ECONNRESET", r).

Definition set (key payload : string) (ttl : Z) (r : server)
  : outcome unit * server :=
  if online r then
    (Returns tt,
     mkServer (<[key := (payload, clock r + ttl * 1000)]> (table r))
              (clock r) (online r))
  else (Throws "ECONNRESET", r).

Definition del (key : string) (r : server) : outcome unit * server :=
  if online r then
    (Returns tt, mkServer (delete key (table r)) (clock r) (online r))
  else (Throws "ECONNRESET", r).

Definition client : RedisClient server :=
  {| client_get := get; client_set := set; client_del := del |}.

(** An empty service at time [0]. *)
Definition fresh (up : bool) : server := mkServer ∅ 0 up.

End Table.

(** ** Vocabulary of the statements *)

Section Vocabulary.
Context {R : Type}.

(** What a read served by the Fallback Store alone returns. *)
Definition fallback_read (now : Z) (key : string)
  (m : gmap string Cache.cacheEntry) : value :=
  let v := fst (Cache.memoryGet now key m) in
  if truthy v then v else VNull.

(** The durable command [cmd] cannot serve this call: the client is not
    ready, or the command throws. *)
Definition durable_fails {A} (cmd : R -> outcome A * R) (s : Redis.state R)
  : bool :=
  negb (Redis.isRedisReady s)
  || match Redis.redisClient s with
     | Some r => raises (fst (cmd r))
     | None => true
     end.

(** The variables of [redis.js] after a call that sends [cmd] when the
    client is ready. *)
Definition after_attempt {A} (cmd : R -> outcome A * R) (s : Redis.state R)
  : Redis.state R :=
  if Redis.isRedisReady s then
    match Redis.redisClient s with
    | Some r => Redis.mkState (Some (snd (cmd r))) (Redis.isConnected s)
    | None => s
    end
  else s.

(** The durable service treats its keys independently: a [set] or a
    [del] on one key does not change the answer of a [get] on
    another. *)
Definition keyed_store (client : RedisClient R) : Prop :=
  forall (k k' : string) (r : R), k <> k' ->
    (forall payload ttl,
        fst (client_get k' (snd (client_set k payload ttl r)))
        = fst (client_get k' r))
    /\ fst (client_get k' (snd (client_del k r))) = fst (client_get k' r).

(** The durable service gives back what it stored: after a [set] that
    succeeded, with a positive TTL, a [get] of the same key on the
    state the [set] left yields the payload. *)
Definition reads_back_writes (client : RedisClient R) : Prop :=
  forall (k payload : string) (ttl : Z) (r r1 : R),
    0 < ttl ->
    client_set k payload ttl r = (Returns tt, r1) ->
    fst (client_get k r1) = Returns (Some payload).

(** Deleting a key that was just deleted changes nothing more. *)
Definition del_idempotent (client : RedisClient R) : Prop :=
  forall (k : string) (r : R),
    snd (client_del k (snd (client_del k r))) = snd (client_del k r).

(** The flag [isConnected] is only ever set while the client library
    holds a connection. *)
Definition connected_only_when_ready (cs : Ioredis.client * Redis.state R)
  : Prop :=
  Redis.isConnected (snd cs) = true -> Ioredis.st (fst cs) = Ioredis.Ready.

End Vocabulary.

(** The order the ranking claims between two neighbours [a], [b] of
    the leaderboard. *)
Definition ranked_before (a b : Dashboard.Entry.t) : Prop :=
  Dashboard.Entry.currentStreak a > Dashboard.Entry.currentStreak b
  \/ (Dashboard.Entry.currentStreak a = Dashboard.Entry.currentStreak b
      /\ Dashboard.Entry.longestStreak a > Dashboard.Entry.longestStreak b)
  \/ (Dashboard.Entry.currentStreak a = Dashboard.Entry.currentStreak b
      /\ Dashboard.Entry.longestStreak a = Dashboard.Entry.longestStreak b
      /\ Dashboard.Entry.totalPenalties a <= Dashboard.Entry.totalPenalties b).

(** Texts made of one or more digits, a point and two digits. *)
Definition is_digit (c : ascii) : bool :=
  (48 <=? nat_of_ascii c)%nat && (nat_of_ascii c <=? 57)%nat.

Fixpoint all_digits (s : string) : bool :=
  match s with
  | EmptyString => true
  | String c rest => is_digit c && all_digits rest
  end.

Definition two_digits (s : string) : bool :=
  match s with
  | String d1 (String d2 EmptyString) => is_digit d1 && is_digit d2
  | _ => false
  end.

Fixpoint two_decimals (s : string) : bool :=
  match s with
  | EmptyString => false
  | String c rest =>
      is_digit c
      && match rest with
         | String c' rest' =>
             if Ascii.eqb c' "." then two_digits rest' else two_decimals rest
         | EmptyString => false
         end
  end.

(** The integer part is written without a zero in front. *)
Definition no_leading_zero (s : string) : bool :=
  match s with
  | String "0" (String c _) => Ascii.eqb c "."
  | _ => true
  end.

(** A text with two decimals read as a number of hundredths: the number
    its digits write, the point left out. *)
Definition digit_number (c : ascii) : Z := Z.of_nat (nat_of_ascii c) - 48.

Fixpoint read_digits (acc : Z) (s : string) : Z :=
  match s with
  | EmptyString => acc
  | String c rest =>
      if is_digit c then read_digits (acc * 10 + digit_number c) rest
      else read_digits acc rest
  end.

Definition read_hundredths (s : string) : Z := read_digits 0 s.

(** [n / 100] is the multiple of a hundredth nearest to [x], the larger
    one when [x] lies halfway between two. *)
Definition nearest_hundredths (x : Q) (n : Z) : Prop :=
  (inject_Z n - (1 # 2) <= x * 100 /\ x * 100 < inject_Z n + (1 # 2))%Q.

(** [100 * completedDays / totalDays] rounded to two decimals, half up,
    in hundredths. *)
Definition round_half_up (completedDays totalDays : Z) : Z :=
  (20000 * completedDays + totalDays) / (2 * totalDays).

(** [100 * completedDays / totalDays] lies halfway between two
    hundredths. *)
Definition is_tie (completedDays totalDays : Z) : Prop :=
  (20000 * completedDays + totalDays) mod (2 * totalDays) = 0.

(** [shown] is the rate of [completedDays] out of [totalDays] as the
    code computes and prints it. The rate is a finite number [x]
    between 0 and 100, never [NaN]; [shown] writes, with two decimals,
    the hundredths nearest to [x]; it is ["0.00"] when there are no
    days; and it is a hundredth nearest to
    [100 * completedDays / totalDays], which is that quotient rounded
    half up unless the quotient lies halfway between two hundredths;
    with fewer than 160 days it is the quotient rounded half up in
    every case. *)
Definition shows_rate (completedDays totalDays : Z) (shown : string) : Prop :=
  exists x : Q,
    Dashboard.completionRate completedDays totalDays = JSNumber.Finite x
    /\ (0 <= x /\ x <= 100)%Q
    /\ two_decimals shown = true
    /\ no_leading_zero shown = true
    /\ nearest_hundredths x (read_hundredths shown)
    /\ 0 <= read_hundredths shown <= 10000
    /\ (totalDays = 0 -> shown = "0.00")
    /\ (0 < totalDays < 2 ^ 32 ->
        2 * Z.abs (read_hundredths shown * totalDays - 10000 * completedDays)
        <= totalDays
        /\ (~ is_tie completedDays totalDays ->
            read_hundredths shown = round_half_up completedDays totalDays))
    /\ (0 < totalDays < 160 ->
        read_hundredths shown = round_half_up completedDays totalDays).

(** The value of [(completedDays / totalDays) * 100]: the quotient is
    rounded to a binary64 value, and so is the product. *)
Definition rate_value (completedDays totalDays : Z) : Q :=
  JSNumber.fl_value
    (JSNumber.fl_value (inject_Z completedDays / inject_Z totalDays)
     * inject_Z 100).

(** The relative error of one rounding is at most [2^-53]. *)
Definition epsilon : Q := 1 # 9007199254740992.

(** Whenever [100 * c / t] lies halfway between two hundredths, the
    rate printed for [c] days out of [t] is the quotient rounded half
    up: for every [c] of [t] with [0 <= c <= t] and [1 <= t <= n]. *)
Definition prints_round_half_up (c t : Z) : bool :=
  read_hundredths (Dashboard.toFixed2 (Dashboard.completionRate c t))
  =? round_half_up c t.

Definition tie_prints_round_half_up (c t : Z) : bool :=
  if (20000 * c + t) mod (2 * t) =? 0 then prints_round_half_up c t
  else true.

Definition ties_print_round_half_up (n : nat) : bool :=
  forallb (fun t => forallb (fun c => tie_prints_round_half_up c t)
                            (0 :: Float64.upto (Z.to_nat t)))
          (Float64.upto n).

(** Sample inputs. *)

Definition sample_items : list value :=
  [ Dashboard.entry_value
      (Dashboard.Entry.mk "ada" "ada_lc" 5 10 2 7 9 "77.78");
    Dashboard.entry_value
      (Dashboard.Entry.mk "bob" "bob lc" 5 10 5 0 0 "0.00") ].

Definition sample_board : value := VArr sample_items.

(** A process whose client is constructed and whose connection is [up]
    or not, over a service that is [online] or not. *)
Definition sample_world (m : gmap string Cache.cacheEntry)
  (connected : bool) (srv : Table.server) : Cache.world Table.server :=
  Cache.mkWorld m (Redis.mkState (Some srv) connected).

(** The service holds a text that is not JSON for challenge [c1]. *)
Definition garbled_server : Table.server :=
  Table.mkServer {[ Cache.buildKey "c1" := ("{oops", 99999) ]} 0 true.

(** The service holds the board of challenge [c1], written at time 0
    with the default TTL. *)
Definition loaded_server : Table.server :=
  Table.mkServer
    {[ Cache.buildKey "c1" := (MiniJSON.stringify sample_board, 60000) ]} 0 true.

(** The same service when its clock shows [time]. *)
Definition loaded_server_at (time : Z) : Table.server :=
  Table.mkServer (Table.table loaded_server) time true.

(** A database with two active members of challenge [c1] that tie on
    both streaks, an inactive member and a member of another
    challenge; [ada] completed 7 days out of 9, [bob] has no daily
    result. *)
Definition bob : Dashboard.Member.t :=
  Dashboard.Member.mk "m1" "c1" true 5 10 5 "bob" "bob_lc".
Definition ada : Dashboard.Member.t :=
  Dashboard.Member.mk "m2" "c1" true 5 10 2 "ada" "ada_lc".
Definition carl : Dashboard.Member.t :=
  Dashboard.Member.mk "m3" "c1" false 30 30 0 "carl" "carl_lc".
Definition dana : Dashboard.Member.t :=
  Dashboard.Member.mk "m4" "c2" true 9 9 0 "dana" "dana_lc".

(** [eve] completed 23 days out of 160. *)
Definition eve : Dashboard.Member.t :=
  Dashboard.Member.mk "m5" "c3" true 1 4 0 "eve" "eve_lc".

Definition long_db : Dashboard.database :=
  Dashboard.mkDatabase [eve]
    (repeat (Dashboard.Result.mk "m5" true 1) 23
     ++ repeat (Dashboard.Result.mk "m5" false 0) 137).

Definition sample_db : Dashboard.database :=
  Dashboard.mkDatabase [bob; ada; carl; dana]
    (map (fun done => Dashboard.Result.mk "m2" done 1)
         [true; true; false; true; true; true; false; true; true]
     ++ [Dashboard.Result.mk "m4" true 3]).

(** The service over the two stand-ins. *)
Definition sample_get :=
  @Cache.getLeaderboardCache MiniJSON.codec Table.server Table.client.
Definition sample_set :=
  @Cache.setLeaderboardCache MiniJSON.codec Table.server Table.client.
Definition sample_invalidate :=
  @Cache.invalidateLeaderboardCache Table.server Table.client.

(** Unfolds a read of the service down to the client commands. *)
Ltac unfold_get :=
  cbv [Cache.getLeaderboardCache Cache.bind Cache.mem_get Cache.isRedisReady
       Cache.try_catch Cache.with_client Cache.ret Cache.redis_read
       Cache.lift_outcome after_attempt durable_fails fallback_read
       Redis.isRedisReady Redis.getRedisClient Redis.redisClient
       Redis.isConnected Cache.memoryCache Cache.redis negb orb raises fst snd].

(** * Properties *)

Example toFixed2_samples :
  Dashboard.toFixed2 (Dashboard.completionRate 1 3) = "33.33"
  /\ Dashboard.toFixed2 (Dashboard.completionRate 2 3) = "66.67"
  /\ Dashboard.toFixed2 (Dashboard.completionRate 1 32) = "3.13"
  /\ Dashboard.toFixed2 (Dashboard.completionRate 7 7) = "100.00"
  /\ Dashboard.toFixed2 (Dashboard.completionRate 0 0) = "0.00"
  /\ Dashboard.toFixed2 (Dashboard.completionRate 23 160) = "14.37"
  /\ Dashboard.toFixed2 (JSNumber.Finite (- (1 # 1024))) = "-0.00"
  /\ Dashboard.toFixed2 (JSNumber.Finite (- (99 # 8))) = "-12.38"
  /\ Dashboard.toFixed2
       (JSNumber.mul (JSNumber.div (JSNumber.of_Z 0) (JSNumber.of_Z 0))
                     (JSNumber.of_Z 100)) = "NaN"
  /\ Dashboard.toFixed2
       (JSNumber.mul (JSNumber.div (JSNumber.of_Z 1) (JSNumber.of_Z 0))
                     (JSNumber.of_Z 100)) = "Infinity"
  /\ Dashboard.decimal 1234567 = "1234567".
Proof. vm_compute. repeat split. Qed.

Example MiniJSON_samples :
  MiniJSON.parse (MiniJSON.stringify sample_board) = Returns sample_board
  /\ MiniJSON.parse "[1, -20 ,[ ], {}, null, true]"
     = Returns (VArr [VNum 1; VNum (-20); VArr []; VObj []; VNull; VBool true])
  /\ raises (MiniJSON.parse "{oops") = true
  /\ raises (MiniJSON.parse "[1,2") = true
  /\ raises (MiniJSON.parse "[] x") = true
  /\ MiniJSON.stringify (VArr [VNum 1; VStr "a"; VNull]) =
     "[1," +:+ String MiniJSON.dq ("a" +:+ String MiniJSON.dq ",null]").
Proof. vm_compute. repeat split. Qed.

(** ** The cache service, equation by equation *)

Section CacheEquations.
Context {codec : JSONCodec} {R : Type} {client : RedisClient R}.
Implicit Types (w : Cache.world R) (now ttl : Z) (challengeId key : string).

Lemma buildKey_inj a b : Cache.buildKey a = Cache.buildKey b -> a = b.
Proof.
  unfold Cache.buildKey, Cache.CACHE_PREFIX. cbn. intros H.
  by repeat (injection H as H).
Qed.

Lemma setLeaderboardCache_eq now challengeId d (ttl : option Z) w :
  Cache.setLeaderboardCache now challengeId d ttl w =
  (Returns tt,
   Cache.mkWorld
     (Cache.memorySet now (Cache.buildKey challengeId) d
        (default Cache.DEFAULT_TTL ttl) (Cache.memoryCache w))
     (after_attempt
        (client_set (Cache.buildKey challengeId) (JSON_stringify d)
           (default Cache.DEFAULT_TTL ttl))
        (Cache.redis w))).
Proof.
  destruct w as [m [[r|] [|]]];
    cbv [Cache.setLeaderboardCache Cache.bind Cache.mem_set Cache.isRedisReady
         Cache.try_catch Cache.with_client Cache.ret after_attempt
         Redis.isRedisReady Redis.getRedisClient Redis.redisClient
         Redis.isConnected Cache.memoryCache Cache.redis];
    try reflexivity.
  by destruct (client_set _ _ _ r) as [[[]|err] r'].
Qed.

Lemma invalidateLeaderboardCache_eq challengeId w :
  Cache.invalidateLeaderboardCache challengeId w =
  (Returns tt,
   Cache.mkWorld
     (Cache.memoryDel (Cache.buildKey challengeId) (Cache.memoryCache w))
     (after_attempt (client_del (Cache.buildKey challengeId)) (Cache.redis w))).
Proof.
  destruct w as [m [[r|] [|]]];
    cbv [Cache.invalidateLeaderboardCache Cache.bind Cache.mem_del
         Cache.isRedisReady Cache.try_catch Cache.with_client Cache.ret
         after_attempt Redis.isRedisReady Redis.getRedisClient
         Redis.redisClient Redis.isConnected Cache.memoryCache Cache.redis];
    try reflexivity.
  by destruct (client_del _ r) as [[[]|err] r'].
Qed.

(** A read that the durable cache cannot serve is served by the
    Fallback Store. *)
Lemma getLeaderboardCache_fallback now challengeId w :
  durable_fails (client_get (Cache.buildKey challengeId)) (Cache.redis w) = true ->
  Cache.getLeaderboardCache now challengeId w =
  (Returns (fallback_read now (Cache.buildKey challengeId) (Cache.memoryCache w)),
   Cache.mkWorld
     (snd (Cache.memoryGet now (Cache.buildKey challengeId) (Cache.memoryCache w)))
     (after_attempt (client_get (Cache.buildKey challengeId)) (Cache.redis w))).
Proof.
  destruct w as [m [[r|] [|]]]; unfold_get.
  - destruct (client_get _ r) as [[ans|err] r']; [discriminate|intros _].
    by destruct (Cache.memoryGet _ _ m) as [v m'], (truthy v).
  - intros _. by destruct (Cache.memoryGet _ _ m) as [v m'], (truthy v).
  - intros _. by destruct (Cache.memoryGet _ _ m) as [v m'], (truthy v).
  - intros _. by destruct (Cache.memoryGet _ _ m) as [v m'], (truthy v).
Qed.

(** The durable cache answers that it holds nothing (or an empty
    text, which [if (data)] treats alike). *)
Lemma getLeaderboardCache_miss now challengeId m r r' ans :
  client_get (Cache.buildKey challengeId) r = (Returns ans, r') ->
  ans = None \/ ans = Some EmptyString ->
  Cache.getLeaderboardCache now challengeId
    (Cache.mkWorld m (Redis.mkState (Some r) true)) =
  (Returns VNull, Cache.mkWorld m (Redis.mkState (Some r') true)).
Proof.
  intros Hget Hans. unfold_get. rewrite Hget.
  by destruct Hans as [-> | ->].
Qed.

(** The durable cache answers with a text that decodes. *)
Lemma getLeaderboardCache_hit now challengeId m r r' payload v :
  client_get (Cache.buildKey challengeId) r = (Returns (Some payload), r') ->
  payload <> EmptyString ->
  JSON_parse payload = Returns v ->
  Cache.getLeaderboardCache now challengeId
    (Cache.mkWorld m (Redis.mkState (Some r) true)) =
  (Returns v, Cache.mkWorld m (Redis.mkState (Some r') true)).
Proof.
  intros Hget Hne Hparse. unfold_get. rewrite Hget.
  destruct (String.eqb_spec payload ""); [done|]. by rewrite Hparse.
Qed.

(** The durable cache answers with a text that does not decode: the
    [catch] block takes over and the Fallback Store is read. *)
Lemma getLeaderboardCache_malformed now challengeId m r r' payload err :
  client_get (Cache.buildKey challengeId) r = (Returns (Some payload), r') ->
  payload <> EmptyString ->
  JSON_parse payload = Throws err ->
  Cache.getLeaderboardCache now challengeId
    (Cache.mkWorld m (Redis.mkState (Some r) true)) =
  (Returns (fallback_read now (Cache.buildKey challengeId) m),
   Cache.mkWorld (snd (Cache.memoryGet now (Cache.buildKey challengeId) m))
                 (Redis.mkState (Some r') true)).
Proof.
  intros Hget Hne Hparse. unfold_get. rewrite Hget.
  destruct (String.eqb_spec payload ""); [done|]. rewrite Hparse.
  by destruct (Cache.memoryGet _ _ m) as [v m'], (truthy v).
Qed.

(** The three operations are total and never throw, whatever the
    client and the codec do. *)
Lemma getLeaderboardCache_returns now challengeId w :
  raises (fst (Cache.getLeaderboardCache now challengeId w)) = false.
Proof.
  destruct w as [m [[r|] [|]]]; unfold_get;
    try (by destruct (Cache.memoryGet _ _ m) as [v m'], (truthy v)).
  destruct (client_get _ r) as [[[payload|]|err] r']; try done.
  - destruct (String.eqb payload ""); [done|].
    destruct (JSON_parse payload); [done|].
    by destruct (Cache.memoryGet _ _ m) as [v m'], (truthy v).
  - by destruct (Cache.memoryGet _ _ m) as [v m'], (truthy v).
Qed.

(** The Fallback Store on its own. *)
Lemma fallback_read_live now key m d exp :
  m !! key = Some (Cache.mkEntry d exp) -> now <= exp -> truthy d = true ->
  fallback_read now key m = d.
Proof.
  intros Hm Hle Ht. unfold fallback_read, Cache.memoryGet. rewrite Hm. cbn.
  destruct (Z.ltb_spec exp now); [lia|]. cbn. by rewrite Ht.
Qed.

Lemma fallback_read_expired now key m d exp :
  m !! key = Some (Cache.mkEntry d exp) -> exp < now ->
  fallback_read now key m = VNull.
Proof.
  intros Hm Hlt. unfold fallback_read, Cache.memoryGet. rewrite Hm. cbn.
  by destruct (Z.ltb_spec exp now); [|lia].
Qed.

Lemma fallback_read_absent now key m :
  m !! key = None -> fallback_read now key m = VNull.
Proof. intros Hm. unfold fallback_read, Cache.memoryGet. by rewrite Hm. Qed.

End CacheEquations.

(** ** Degradation *)

Section Degradation.
Context {codec : JSONCodec} {R : Type} {client : RedisClient R}.
Implicit Types (w : Cache.world R) (now : Z) (challengeId : string).

Lemma setLeaderboardCache_returns now challengeId d ttl w :
  raises (fst (Cache.setLeaderboardCache now challengeId d ttl w)) = false.
Proof. by rewrite setLeaderboardCache_eq. Qed.

Lemma invalidateLeaderboardCache_returns challengeId w :
  raises (fst (Cache.invalidateLeaderboardCache challengeId w)) = false.
Proof. by rewrite invalidateLeaderboardCache_eq. Qed.

(** C1. None of the three operations ever throws. When the durable
    cache cannot serve a call (the client is not ready, or the command
    throws), the call completes on the Fallback Store alone: the read
    returns what the Fallback Store holds, the write and the removal
    act on the Fallback Store, and the durable side contributes nothing
    to the result. In particular a live array held by the Fallback Store
    is returned when the durable [get] throws. *)
Theorem C1_degradation now challengeId d (ttl : option Z) w :
  let key := Cache.buildKey challengeId in
  let seconds := default Cache.DEFAULT_TTL ttl in
  (raises (fst (Cache.getLeaderboardCache now challengeId w)) = false
   /\ raises (fst (Cache.setLeaderboardCache now challengeId d ttl w)) = false
   /\ raises (fst (Cache.invalidateLeaderboardCache challengeId w)) = false)
  /\ (durable_fails (client_get key) (Cache.redis w) = true ->
      Cache.getLeaderboardCache now challengeId w =
        (Returns (fallback_read now key (Cache.memoryCache w)),
         Cache.mkWorld (snd (Cache.memoryGet now key (Cache.memoryCache w)))
                       (after_attempt (client_get key) (Cache.redis w)))
      /\ forall items exp,
           Cache.memoryCache w !! key = Some (Cache.mkEntry (VArr items) exp) ->
           now <= exp ->
           fst (Cache.getLeaderboardCache now challengeId w) = Returns (VArr items))
  /\ (durable_fails (client_set key (JSON_stringify d) seconds) (Cache.redis w) = true ->
      Cache.setLeaderboardCache now challengeId d ttl w =
        (Returns tt,
         Cache.mkWorld (Cache.memorySet now key d seconds (Cache.memoryCache w))
                       (after_attempt (client_set key (JSON_stringify d) seconds)
                                      (Cache.redis w))))
  /\ (durable_fails (client_del key) (Cache.redis w) = true ->
      Cache.invalidateLeaderboardCache challengeId w =
        (Returns tt,
         Cache.mkWorld (Cache.memoryDel key (Cache.memoryCache w))
                       (after_attempt (client_del key) (Cache.redis w)))).
Proof.
  intros key seconds. repeat split.
  - apply getLeaderboardCache_returns.
  - apply setLeaderboardCache_returns.
  - apply invalidateLeaderboardCache_returns.
  - by apply getLeaderboardCache_fallback.
  - intros items exp Hm Hle.
    rewrite getLeaderboardCache_fallback by done. cbn [fst]. f_equal.
    by apply fallback_read_live with exp.
  - intros _. apply setLeaderboardCache_eq.
  - intros _. apply invalidateLeaderboardCache_eq.
Qed.

(** C4. A ready client whose [get] succeeds with no value makes the
    read return [null]; the Fallback Store is neither read nor changed,
    so a value held only there is not returned. *)
Theorem C4_durable_miss_is_final now challengeId
  (m : gmap string Cache.cacheEntry) (r r' : R) :
  client_get (Cache.buildKey challengeId) r = (Returns None, r') ->
  Cache.getLeaderboardCache now challengeId
    (Cache.mkWorld m (Redis.mkState (Some r) true)) =
  (Returns VNull, Cache.mkWorld m (Redis.mkState (Some r') true)).
Proof. intros Hget. unfold_get. by rewrite Hget. Qed.

(** C6 as amended. A stored text that does not decode never makes the
    read throw. A non-empty one sends the read to the Fallback Store,
    whose live value is returned, [null] when it has none; the empty
    text is not decoded at all and is a plain miss. *)
Theorem C6_malformed_payload_falls_back now challengeId
  (m : gmap string Cache.cacheEntry) (r r' : R) payload err :
  client_get (Cache.buildKey challengeId) r = (Returns (Some payload), r') ->
  JSON_parse payload = Throws err ->
  let w := Cache.mkWorld m (Redis.mkState (Some r) true) in
  raises (fst (Cache.getLeaderboardCache now challengeId w)) = false
  /\ (payload <> EmptyString ->
      fst (Cache.getLeaderboardCache now challengeId w) =
        Returns (fallback_read now (Cache.buildKey challengeId) m))
  /\ (payload <> EmptyString ->
      m !! Cache.buildKey challengeId = None ->
      fst (Cache.getLeaderboardCache now challengeId w) = Returns VNull)
  /\ (payload = EmptyString ->
      fst (Cache.getLeaderboardCache now challengeId w) = Returns VNull).
Proof.
  intros Hget Hparse w. split; [apply getLeaderboardCache_returns|].
  split; [|split].
  - intros Hne. subst w. by erewrite getLeaderboardCache_malformed.
  - intros Hne Hm. subst w. erewrite getLeaderboardCache_malformed by done.
    cbn [fst]. by rewrite fallback_read_absent.
  - intros ->. subst w. erewrite getLeaderboardCache_miss; eauto.
Qed.

End Degradation.

(** A process connected to an unreachable service, whose Fallback Store
    holds a live board for challenge [c1]. *)
Lemma C1_degradation_witness :
  let w := sample_world {[ Cache.buildKey "c1" := Cache.mkEntry sample_board 60000 ]}
                        true (Table.fresh false) in
  fst (sample_get 1000 "c1" w) = Returns sample_board
  /\ fst (sample_set 1000 "c1" sample_board None w) = Returns tt
  /\ fst (sample_invalidate "c1" w) = Returns tt.
Proof.
  intros w.
  destruct (C1_degradation (codec := MiniJSON.codec) (client := Table.client)
              1000 "c1" sample_board None w) as (_ & Hget & Hset & Hdel).
  destruct (Hget eq_refl) as [_ Hlive].
  split; [|split].
  - apply (Hlive _ 60000); [reflexivity | lia].
  - unfold sample_set. by rewrite (Hset eq_refl).
  - unfold sample_invalidate. by rewrite (Hdel eq_refl).
Defined.

(** The service is reachable and holds nothing; the Fallback Store holds
    a live board. *)
Lemma C4_durable_miss_is_final_witness :
  let m : gmap string Cache.cacheEntry :=
    {[ Cache.buildKey "c1" := Cache.mkEntry sample_board 60000 ]} in
  sample_get 1000 "c1" (sample_world m true (Table.fresh true)) =
  (Returns VNull, sample_world m true (Table.fresh true)).
Proof.
  intros m.
  apply (C4_durable_miss_is_final (codec := MiniJSON.codec)
           (client := Table.client) 1000 "c1" m (Table.fresh true) (Table.fresh true)).
  reflexivity.
Defined.

(** C6 as stated fails: the read does not return [null] but the board
    of the Fallback Store. *)
Lemma C6_counterexample :
  let m : gmap string Cache.cacheEntry :=
    {[ Cache.buildKey "c1" := Cache.mkEntry sample_board 60000 ]} in
  let w := sample_world m true garbled_server in
  Table.get (Cache.buildKey "c1") garbled_server = (Returns (Some "{oops"), garbled_server)
  /\ raises (MiniJSON.parse "{oops") = true
  /\ fst (sample_get 1000 "c1" w) = Returns sample_board
  /\ sample_board <> VNull.
Proof. vm_compute. repeat split. discriminate. Qed.

Lemma C6_malformed_payload_falls_back_witness :
  let m : gmap string Cache.cacheEntry :=
    {[ Cache.buildKey "c1" := Cache.mkEntry sample_board 60000 ]} in
  fst (sample_get 1000 "c1" (sample_world m true garbled_server))
  = Returns sample_board
  /\ fst (sample_get 1000 "c1" (sample_world ∅ true garbled_server))
     = Returns VNull.
Proof.
  intros m. split.
  - destruct (C6_malformed_payload_falls_back (codec := MiniJSON.codec)
                (client := Table.client) 1000 "c1" m garbled_server garbled_server
                "{oops" "SyntaxError: Unexpected token" eq_refl eq_refl)
      as (_ & Hlive & _).
    unfold sample_get, sample_world. rewrite Hlive by discriminate. reflexivity.
  - destruct (C6_malformed_payload_falls_back (codec := MiniJSON.codec)
                (client := Table.client) 1000 "c1" ∅ garbled_server garbled_server
                "{oops" "SyntaxError: Unexpected token" eq_refl eq_refl)
      as (_ & _ & Hnone & _).
    apply Hnone; [discriminate | reflexivity].
Defined.

(** ** Write then read, frame and idempotence *)

Section Store.
Context {codec : JSONCodec} {R : Type} {client : RedisClient R}.
Implicit Types (w : Cache.world R) (now : Z) (challengeId : string)
  (s : Redis.state R) (m : gmap string Cache.cacheEntry).

Lemma isRedisReady_after_attempt {A} (cmd : R -> outcome A * R) s :
  Redis.isRedisReady (after_attempt cmd s) = Redis.isRedisReady s.
Proof. by destruct s as [[r|] [|]]. Qed.

(** The value a read returns depends on the world only through the
    readiness of the client, the answer of the durable [get] and the
    value the Fallback Store yields. *)
Lemma getLeaderboardCache_observes now challengeId w1 w2 :
  let key := Cache.buildKey challengeId in
  Redis.isRedisReady (Cache.redis w1) = Redis.isRedisReady (Cache.redis w2) ->
  (fun r => fst (client_get key r)) <$> Redis.redisClient (Cache.redis w1)
  = (fun r => fst (client_get key r)) <$> Redis.redisClient (Cache.redis w2) ->
  fst (Cache.memoryGet now key (Cache.memoryCache w1))
  = fst (Cache.memoryGet now key (Cache.memoryCache w2)) ->
  fst (Cache.getLeaderboardCache now challengeId w1)
  = fst (Cache.getLeaderboardCache now challengeId w2).
Proof.
  intros key.
  destruct w1 as [m1 [[r1|] [|]]], w2 as [m2 [[r2|] [|]]]; cbn;
    intros Hready Hans Hmem; try discriminate; unfold_get; fold key;
    try (destruct (Cache.memoryGet now key m1) as [v1 m1'],
                  (Cache.memoryGet now key m2) as [v2 m2'];
         cbn in Hmem; subst v2; by destruct (truthy v1)).
  injection Hans as Hans.
  destruct (client_get key r1) as [o1 r1'], (client_get key r2) as [o2 r2'].
  cbn in Hans. subst o2. destruct o1 as [[payload|]|err]; try done.
  - destruct (String.eqb payload ""); [done|].
    destruct (JSON_parse payload); [done|].
    destruct (Cache.memoryGet now key m1) as [v1 m1'],
             (Cache.memoryGet now key m2) as [v2 m2'].
    cbn in Hmem; subst v2; by destruct (truthy v1).
  - destruct (Cache.memoryGet now key m1) as [v1 m1'],
             (Cache.memoryGet now key m2) as [v2 m2'].
    cbn in Hmem; subst v2; by destruct (truthy v1).
Qed.

Lemma memoryGet_other now (key' : string) m m' :
  m' !! key' = m !! key' ->
  fst (Cache.memoryGet now key' m') = fst (Cache.memoryGet now key' m).
Proof.
  intros Hm. unfold Cache.memoryGet. rewrite Hm.
  destruct (m !! key') as [entry|]; [|done].
  by destruct (Cache.expiresAt entry <? now).
Qed.

(** C3 as amended. After [setLeaderboardCache] wrote the array [items]
    at time [now], consider a read at time [later]. If the durable
    cache cannot serve the read (the variables of [redis.js] are in a
    state [s] where the client is not ready or its [get] throws), the
    read is served by the Fallback Store as the write left it: it
    returns [items] up to [ttl] seconds after the write and [null]
    after that. If the client was ready at the write and its [set]
    succeeded, over a durable service that gives back what it stored,
    the write left the payload in the durable cache, and a read returns
    [items] as long as the durable cache answers as it did right after
    the write, provided the payload decodes to [items]. If the client
    is ready and the durable cache holds nothing, the read returns
    [null], within the TTL too. The TTL defaults to 60 seconds. *)
Theorem C3_set_then_get now later challengeId items (ttl : option Z) w s :
  let key := Cache.buildKey challengeId in
  let seconds := default Cache.DEFAULT_TTL ttl in
  let payload := JSON_stringify (VArr items) in
  let written := snd (Cache.setLeaderboardCache now challengeId (VArr items) ttl w) in
  let w' := Cache.mkWorld (Cache.memoryCache written) s in
  (durable_fails (client_get key) s = true ->
     (later <= now + seconds * 1000 ->
      fst (Cache.getLeaderboardCache later challengeId w') = Returns (VArr items))
     /\ (now + seconds * 1000 < later ->
         fst (Cache.getLeaderboardCache later challengeId w') = Returns VNull))
  /\ (forall r r1,
        reads_back_writes client ->
        Cache.redis w = Redis.mkState (Some r) true ->
        client_set key payload seconds r = (Returns tt, r1) ->
        0 < seconds ->
        payload <> EmptyString ->
        JSON_parse payload = Returns (VArr items) ->
        Cache.redis written = Redis.mkState (Some r1) true
        /\ fst (client_get key r1) = Returns (Some payload)
        /\ fst (Cache.getLeaderboardCache later challengeId written)
           = Returns (VArr items)
        /\ (forall r2,
              s = Redis.mkState (Some r2) true ->
              fst (client_get key r2) = fst (client_get key r1) ->
              fst (Cache.getLeaderboardCache later challengeId w')
              = Returns (VArr items)))
  /\ (forall r r',
        s = Redis.mkState (Some r) true ->
        client_get key r = (Returns None, r') ->
        fst (Cache.getLeaderboardCache later challengeId w') = Returns VNull)
  /\ Cache.setLeaderboardCache now challengeId (VArr items) None w
     = Cache.setLeaderboardCache now challengeId (VArr items) (Some 60) w.
Proof.
  intros key seconds payload written w'. subst written w'.
  rewrite setLeaderboardCache_eq. cbn [snd Cache.memoryCache Cache.redis].
  fold key seconds payload.
  assert (Cache.memorySet now key (VArr items) seconds (Cache.memoryCache w) !! key
          = Some (Cache.mkEntry (VArr items) (now + seconds * 1000))) as Hm
    by apply lookup_insert_eq.
  split; [|split; [|split]].
  - intros Hfails. split.
    + intros Hle. rewrite getLeaderboardCache_fallback by done. cbn [fst]. f_equal.
      by eapply fallback_read_live.
    + intros Hlt. rewrite getLeaderboardCache_fallback by done. cbn [fst]. f_equal.
      by eapply fallback_read_expired.
  - intros r r1 Hlaw Hready Hset Hpos Hne Hparse.
    pose proof (Hlaw key payload seconds r r1 Hpos Hset) as Hback.
    rewrite Hready.
    assert (after_attempt (client_set key payload seconds)
              (Redis.mkState (Some r) true)
            = Redis.mkState (Some r1) true) as ->
      by (unfold after_attempt; cbn; by rewrite Hset).
    split; [done|]. split; [done|]. split.
    + destruct (client_get key r1) as [ans r1'] eqn:Hget. cbn in Hback. subst ans.
      by erewrite getLeaderboardCache_hit.
    + intros r2 -> Hsame. rewrite Hback in Hsame.
      destruct (client_get key r2) as [ans r2'] eqn:Hget. cbn in Hsame. subst ans.
      by erewrite getLeaderboardCache_hit.
  - intros r r' -> Hget. erewrite getLeaderboardCache_miss; eauto.
  - reflexivity.
Qed.

(** C8. Over a durable service that treats its keys independently, a
    write or a removal for challenge [a] leaves what a read for another
    challenge [b] returns unchanged. *)
Theorem C8_challenges_do_not_collide a b now later d (ttl : option Z) w :
  keyed_store client ->
  a <> b ->
  Cache.buildKey a <> Cache.buildKey b
  /\ fst (Cache.getLeaderboardCache later b
            (snd (Cache.setLeaderboardCache now a d ttl w)))
     = fst (Cache.getLeaderboardCache later b w)
  /\ fst (Cache.getLeaderboardCache later b
            (snd (Cache.invalidateLeaderboardCache a w)))
     = fst (Cache.getLeaderboardCache later b w).
Proof.
  intros Hkeyed Hab.
  assert (Cache.buildKey a <> Cache.buildKey b) as Hkey
    by (intros Heq; by apply Hab, buildKey_inj).
  split; [done|]. split.
  - rewrite setLeaderboardCache_eq. cbn [snd].
    apply getLeaderboardCache_observes; cbn [Cache.redis Cache.memoryCache].
    + apply isRedisReady_after_attempt.
    + destruct w as [m [[r|] [|]]]; cbn; try done.
      f_equal. by apply (Hkeyed _ _ r Hkey).
    + apply memoryGet_other. by apply lookup_insert_ne.
  - rewrite invalidateLeaderboardCache_eq. cbn [snd].
    apply getLeaderboardCache_observes; cbn [Cache.redis Cache.memoryCache].
    + apply isRedisReady_after_attempt.
    + destruct w as [m [[r|] [|]]]; cbn; try done.
      f_equal. by apply (Hkeyed _ _ r Hkey).
    + apply memoryGet_other. by apply lookup_delete_ne.
Qed.

(** C9. The second of two removals in a row returns without error and
    leaves the Fallback Store as the first left it; over a durable
    service whose deletion is idempotent the whole state is the same
    after two removals as after one. *)
Theorem C9_invalidate_idempotent challengeId w :
  let once := Cache.invalidateLeaderboardCache challengeId w in
  let twice := Cache.invalidateLeaderboardCache challengeId (snd once) in
  fst twice = Returns tt
  /\ Cache.memoryCache (snd twice) = Cache.memoryCache (snd once)
  /\ Redis.isRedisReady (Cache.redis (snd twice))
     = Redis.isRedisReady (Cache.redis (snd once))
  /\ (del_idempotent client -> snd twice = snd once).
Proof.
  intros once twice. subst once twice.
  rewrite !invalidateLeaderboardCache_eq. cbn [fst snd Cache.memoryCache Cache.redis].
  unfold Cache.memoryDel. rewrite delete_delete_eq.
  repeat split.
  - by rewrite !isRedisReady_after_attempt.
  - intros Hidem. f_equal.
    destruct w as [m [[r|] [|]]]; cbn; try done.
    by rewrite Hidem.
Qed.

End Store.

(** C3 as stated fails. The board is written while the client is still
    connecting, so only the Fallback Store receives it; the connection
    is then established; a read one second after the write asks the
    durable cache, which holds nothing, and returns [null]. *)
Lemma C3_counterexample :
  let w0 := sample_world ∅ false (Table.fresh true) in
  let w1 := snd (sample_set 0 "c1" sample_board None w0) in
  let w2 := Cache.deliver Redis.Connect w1 in
  0 <= 1000 <= 0 + Cache.DEFAULT_TTL * 1000
  /\ Cache.memoryCache w2 !! Cache.buildKey "c1"
     = Some (Cache.mkEntry sample_board 60000)
  /\ fst (sample_get 1000 "c1" w2) = Returns VNull
  /\ sample_board <> VNull.
Proof. vm_compute. repeat split; discriminate. Qed.

Lemma Table_reads_back_writes : reads_back_writes Table.client.
Proof.
  intros k payload ttl r r1 Hpos. cbn. unfold Table.set, Table.get.
  destruct r as [t c [|]]; cbn; [|discriminate].
  intros [= <-]. cbn. rewrite lookup_insert_eq.
  by destruct (Z.ltb_spec c (c + ttl * 1000)); [|lia].
Qed.

Lemma C3_set_then_get_witness :
  let w := sample_world ∅ true (Table.fresh true) in
  let written := snd (sample_set 0 "c1" sample_board None w) in
  let unready := Redis.mkState (Some (Table.fresh true)) false in
  let ready := Redis.mkState (Some loaded_server) true in
  let ready_at time := Redis.mkState (Some (loaded_server_at time)) true in
  Cache.redis written = ready
  /\ fst (sample_get 60000 "c1" (Cache.mkWorld (Cache.memoryCache written) unready))
     = Returns sample_board
  /\ fst (sample_get 60001 "c1" (Cache.mkWorld (Cache.memoryCache written) unready))
     = Returns VNull
  /\ fst (sample_get 1000 "c1" written) = Returns sample_board
  /\ fst (sample_get 59999 "c1"
            (Cache.mkWorld (Cache.memoryCache written) (ready_at 59999)))
     = Returns sample_board
  /\ fst (sample_get 60000 "c1"
            (Cache.mkWorld (Cache.memoryCache written) (ready_at 60000)))
     = Returns VNull.
Proof.
  intros w written unready ready ready_at.
  split; [reflexivity|]. split; [|split; [|split; [|split]]].
  - destruct (C3_set_then_get (codec := MiniJSON.codec) (client := Table.client)
                0 60000 "c1" sample_items None w unready) as (Hfb & _).
    destruct (Hfb eq_refl) as [Hlive _]. apply Hlive.
    unfold Cache.DEFAULT_TTL. cbn. lia.
  - destruct (C3_set_then_get (codec := MiniJSON.codec) (client := Table.client)
                0 60001 "c1" sample_items None w unready) as (Hfb & _).
    destruct (Hfb eq_refl) as [_ Hdead]. apply Hdead.
    unfold Cache.DEFAULT_TTL. cbn. lia.
  - destruct (C3_set_then_get (codec := MiniJSON.codec) (client := Table.client)
                0 1000 "c1" sample_items None w unready) as (_ & Hhit & _).
    destruct (Hhit (Table.fresh true) loaded_server Table_reads_back_writes)
      as (_ & _ & Hnow & _);
      [reflexivity | reflexivity | unfold Cache.DEFAULT_TTL; cbn; lia
       | discriminate | reflexivity | exact Hnow].
  - destruct (C3_set_then_get (codec := MiniJSON.codec) (client := Table.client)
                0 59999 "c1" sample_items None w (ready_at 59999)) as (_ & Hhit & _).
    destruct (Hhit (Table.fresh true) loaded_server Table_reads_back_writes)
      as (_ & _ & _ & Hsame);
      [reflexivity | reflexivity | unfold Cache.DEFAULT_TTL; cbn; lia
       | discriminate | reflexivity |].
    apply (Hsame (loaded_server_at 59999)); reflexivity.
  - destruct (C3_set_then_get (codec := MiniJSON.codec) (client := Table.client)
                0 60000 "c1" sample_items None w (ready_at 60000)) as (_ & _ & Hmiss & _).
    apply (Hmiss (loaded_server_at 60000) (loaded_server_at 60000)); reflexivity.
Defined.

Lemma Table_keyed_store : keyed_store Table.client.
Proof.
  intros k k' r Hne. cbn. unfold Table.get, Table.set, Table.del.
  destruct r as [t c [|]]; cbn; [|done].
  split; [intros payload ttl|].
  - by rewrite lookup_insert_ne.
  - by rewrite lookup_delete_ne.
Qed.

Lemma Table_del_idempotent : del_idempotent Table.client.
Proof.
  intros k r. cbn. unfold Table.del.
  destruct r as [t c [|]]; cbn; [|done].
  by rewrite delete_delete_eq.
Qed.

(** Two challenges cached in both stores; [c1] is rewritten, then
    removed, and [c2] is read. *)
Lemma C8_challenges_do_not_collide_witness :
  let m : gmap string Cache.cacheEntry :=
    {[ Cache.buildKey "c1" := Cache.mkEntry sample_board 60000;
       Cache.buildKey "c2" := Cache.mkEntry (VArr []) 60000 ]} in
  let srv := Table.mkServer
               (<[ Cache.buildKey "c2" := ("[]", 60000) ]> (Table.table loaded_server))
               0 true in
  let w := sample_world m true srv in
  fst (sample_get 2000 "c2" (snd (sample_set 1000 "c1" (VArr []) (Some 5) w)))
  = fst (sample_get 2000 "c2" w)
  /\ fst (sample_get 2000 "c2" (snd (sample_invalidate "c1" w)))
     = fst (sample_get 2000 "c2" w).
Proof.
  intros m srv w.
  apply (C8_challenges_do_not_collide (codec := MiniJSON.codec)
           (client := Table.client) "c1" "c2" 1000 2000 (VArr []) (Some 5) w
           Table_keyed_store).
  discriminate.
Defined.

Lemma C9_invalidate_idempotent_witness :
  let m : gmap string Cache.cacheEntry :=
    {[ Cache.buildKey "c1" := Cache.mkEntry sample_board 60000 ]} in
  let w := sample_world m true loaded_server in
  snd (sample_invalidate "c1" (snd (sample_invalidate "c1" w)))
  = snd (sample_invalidate "c1" w).
Proof.
  intros m w.
  apply (C9_invalidate_idempotent (client := Table.client) "c1" w).
  exact Table_del_idempotent.
Defined.

(** ** Reconnection *)

Section Reconnection.
Context {R : Type}.
Implicit Types (c : Ioredis.client) (s : Redis.state R)
  (cs : Ioredis.client * Redis.state R) (i : Ioredis.stimulus).

Lemma run_step_invariant cs i :
  connected_only_when_ready cs -> connected_only_when_ready (Ioredis.run_step cs i).
Proof.
  destruct cs as [[status n] [r b]]. unfold connected_only_when_ready, Ioredis.run_step, Ioredis.step.
  cbn. intros Hinv.
  destruct status, i; cbn; try done;
    destruct (Redis.retryStrategy (n + 1)); cbn; try done.
  all: intros Hb; specialize (Hinv Hb); discriminate.
Qed.

Lemma run_cons cs i stims :
  Ioredis.run cs (i :: stims) = Ioredis.run (Ioredis.run_step cs i) stims.
Proof. reflexivity. Qed.

Lemma run_invariant stims : forall cs,
  connected_only_when_ready cs -> connected_only_when_ready (Ioredis.run cs stims).
Proof.
  induction stims as [|i stims IH]; intros cs Hinv; [done|].
  rewrite run_cons. apply IH. by apply run_step_invariant.
Qed.

Lemma start_invariant (constructed : outcome R) :
  connected_only_when_ready (Ioredis.start constructed).
Proof. by destruct constructed. Qed.

(** An ended client ignores every stimulus. *)
Lemma run_ended stims : forall cs,
  Ioredis.st (fst cs) = Ioredis.Ended -> Ioredis.run cs stims = cs.
Proof.
  induction stims as [|i stims IH]; intros [[status n] s] Hst; [done|].
  cbn in Hst. subst status. rewrite run_cons.
  replace (Ioredis.run_step (Ioredis.mkClient Ioredis.Ended n, s) i)
    with (Ioredis.mkClient Ioredis.Ended n, s) by (by destruct i).
  by apply IH.
Qed.

Lemma not_ready_when_disconnected s :
  Redis.isConnected s = false -> Redis.isRedisReady s = false.
Proof. destruct s as [[r|] b]; cbn; by intros ->. Qed.

End Reconnection.

(** C7. [retryStrategy] answers the first three reconnection attempts
    with the delay [min(attempt * 500, 2000)] and every later attempt
    with [null]. Driven by the library, a client whose connections keep
    failing schedules three retries, after 500, 1000 and 1500 ms, and
    ends when the third retry has failed; once it has ended, no
    stimulus makes [isRedisReady()] true again. *)
Theorem C7_reconnection_policy :
  (forall times, 1 <= times <= 3 ->
     Redis.retryStrategy times = Some (Z.min (times * 500) 2000))
  /\ (forall times, 3 < times -> Redis.retryStrategy times = None)
  /\ (forall (R : Type) (constructed : outcome R),
        let failures :=
          [Ioredis.Lost; Ioredis.TimerFired; Ioredis.Lost; Ioredis.TimerFired;
           Ioredis.Lost; Ioredis.TimerFired; Ioredis.Lost] in
        Ioredis.delays (fst (Ioredis.start constructed)) failures = [500; 1000; 1500]
        /\ Ioredis.st (fst (Ioredis.run (Ioredis.start constructed) failures))
           = Ioredis.Ended)
  /\ (forall (R : Type) (constructed : outcome R) before after,
        Ioredis.st (fst (Ioredis.run (Ioredis.start constructed) before))
        = Ioredis.Ended ->
        Redis.isRedisReady
          (snd (Ioredis.run (Ioredis.start constructed) (before ++ after)))
        = false).
Proof.
  split; [|split; [|split]].
  - intros times Hrange. unfold Redis.retryStrategy.
    by destruct (Z.ltb_spec 3 times); [lia|].
  - intros times Hlate. unfold Redis.retryStrategy.
    by destruct (Z.ltb_spec 3 times); [|lia].
  - intros R constructed failures. by destruct constructed.
  - intros R constructed before after Hended.
    unfold Ioredis.run at 1. rewrite fold_left_app.
    change (fold_left Ioredis.run_step before (Ioredis.start constructed))
      with (Ioredis.run (Ioredis.start constructed) before).
    change (fold_left Ioredis.run_step after ?cs) with (Ioredis.run cs after).
    rewrite run_ended by done.
    apply not_ready_when_disconnected.
    pose proof (run_invariant before _ (start_invariant constructed)) as Hinv.
    destruct (Redis.isConnected _) eqn:Hb; [|done].
    specialize (Hinv Hb). congruence.
Qed.

Lemma C7_reconnection_policy_witness :
  Redis.retryStrategy 1 = Some 500
  /\ Redis.retryStrategy 2 = Some 1000
  /\ Redis.retryStrategy 3 = Some 1500
  /\ Redis.retryStrategy 4 = None
  /\ Redis.isRedisReady
       (snd (Ioredis.run (Ioredis.start (Returns (Table.fresh true)))
               ([Ioredis.Lost; Ioredis.TimerFired; Ioredis.Lost; Ioredis.TimerFired;
                 Ioredis.Lost; Ioredis.TimerFired; Ioredis.Lost]
                ++ [Ioredis.TimerFired; Ioredis.Established; Ioredis.Lost])))
     = false.
Proof.
  destruct C7_reconnection_policy as (Hdelay & Hnull & _ & Hdead).
  split; [|split; [|split; [|split]]].
  - apply (Hdelay 1). lia.
  - apply (Hdelay 2). lia.
  - apply (Hdelay 3). lia.
  - apply (Hnull 4). lia.
  - apply Hdead. reflexivity.
Defined.

(** ** Ranking *)

Lemma orderBy_total : Total Dashboard.orderBy.
Proof. intros a b. unfold Dashboard.orderBy. lia. Qed.

Lemma orderBy_transitive : Transitive Dashboard.orderBy.
Proof. intros a b c. unfold Dashboard.orderBy. lia. Qed.

Lemma Sorted_lookup_next {A} (R : relation A) (l : list A) :
  Sorted R l ->
  forall i x y, l !! i = Some x -> l !! S i = Some y -> R x y.
Proof.
  induction 1 as [|x0 l Hsorted IH Hhd]; intros i x y Hx Hy; [done|].
  destruct i as [|i]; cbn in *.
  - injection Hx as ->. destruct Hhd as [|y0 l' Hr]; [done|].
    cbn in Hy. by injection Hy as ->.
  - by eapply IH.
Qed.

Lemma StronglySorted_lookup_lt {A} (R : relation A) (l : list A) :
  StronglySorted R l ->
  forall i j x y, (i < j)%nat -> l !! i = Some x -> l !! j = Some y -> R x y.
Proof.
  induction 1 as [|x0 l Hsorted IH Hall]; intros i j x y Hlt Hx Hy; [done|].
  destruct j as [|j]; [lia|]. destruct i as [|i]; cbn in *.
  - injection Hx as ->. rewrite Forall_forall in Hall.
    apply Hall. by eapply list_elem_of_lookup_2.
  - eapply IH; [|done..]. lia.
Qed.

Lemma findMany_challengeMember_elem db challengeId member :
  member ∈ Dashboard.challengeMember db ->
  Dashboard.Member.challengeId member = challengeId ->
  Dashboard.Member.isActive member = true ->
  member ∈ Dashboard.findMany_challengeMember db challengeId.
Proof.
  intros Hin Hcid Hactive. unfold Dashboard.findMany_challengeMember.
  rewrite merge_sort_Permutation. apply list_elem_of_In, filter_In.
  split; [by apply list_elem_of_In|].
  rewrite Hcid, String.eqb_refl. by rewrite Hactive.
Qed.

Lemma leaderboard_lookup db challengeId i e :
  Dashboard.leaderboard db challengeId !! i = Some e ->
  exists member,
    Dashboard.findMany_challengeMember db challengeId !! i = Some member
    /\ e = Dashboard.leaderboardEntry db member.
Proof.
  unfold Dashboard.leaderboard.
  change (map ?f ?l) with (f <$> l). rewrite list_lookup_fmap.
  destruct (_ !! i) as [member|]; [|done].
  cbn. intros [= <-]. by exists member.
Qed.

(** The controller answers with the cached board when the cache has
    one, and otherwise with the ranking, which it stores. It throws
    in neither case. *)
Lemma getChallengeLeaderboard_response {codec : JSONCodec} {R : Type}
  {client : RedisClient R} db now_get now_set challengeId (w : Cache.world R) :
  let cached := Cache.getLeaderboardCache now_get challengeId w in
  exists cachedData,
    fst cached = Returns cachedData
    /\ Dashboard.getChallengeLeaderboard db now_get now_set challengeId w =
       if truthy cachedData then (Returns cachedData, snd cached)
       else
         let board :=
           VArr (map Dashboard.entry_value (Dashboard.leaderboard db challengeId)) in
         (Returns board,
          snd (Cache.setLeaderboardCache now_set challengeId board None (snd cached))).
Proof.
  intros cached. subst cached.
  pose proof (getLeaderboardCache_returns now_get challengeId w) as Hret.
  unfold Dashboard.getChallengeLeaderboard, Cache.bind.
  destruct (Cache.getLeaderboardCache now_get challengeId w)
    as [[cachedData|err] w']; [|discriminate].
  exists cachedData. split; [done|]. cbn [fst snd].
  destruct (truthy cachedData); [done|].
  by rewrite setLeaderboardCache_eq.
Qed.

(** C2. Every two neighbours of the leaderboard are in the claimed
    order; an entry that ties another on both streaks and has the
    smaller penalties stands before it (so 5/10/2 stands before 5/10/5);
    and every active member of the challenge has its entry on the
    board. *)
Theorem C2_ranking_order db challengeId :
  let board := Dashboard.leaderboard db challengeId in
  (forall i a b, board !! i = Some a -> board !! S i = Some b -> ranked_before a b)
  /\ (forall i j a b,
        board !! i = Some a -> board !! j = Some b ->
        Dashboard.Entry.currentStreak a = Dashboard.Entry.currentStreak b ->
        Dashboard.Entry.longestStreak a = Dashboard.Entry.longestStreak b ->
        Dashboard.Entry.totalPenalties a < Dashboard.Entry.totalPenalties b ->
        (i < j)%nat)
  /\ (forall member,
        member ∈ Dashboard.challengeMember db ->
        Dashboard.Member.challengeId member = challengeId ->
        Dashboard.Member.isActive member = true ->
        Dashboard.leaderboardEntry db member ∈ board).
Proof.
  intros board. subst board. split; [|split].
  - intros i a b Ha Hb.
    apply leaderboard_lookup in Ha as (x & Hx & ->).
    apply leaderboard_lookup in Hb as (y & Hy & ->).
    pose proof (Sorted_lookup_next Dashboard.orderBy _
                  (Sorted_merge_sort (Total0 := orderBy_total) _ _) i x y Hx Hy)
      as Hxy.
    unfold ranked_before, Dashboard.orderBy in *. cbn. lia.
  - intros i j a b Ha Hb Hcs Hls Htp.
    apply leaderboard_lookup in Ha as (x & Hx & ->).
    apply leaderboard_lookup in Hb as (y & Hy & ->).
    cbn in Hcs, Hls, Htp.
    destruct (decide (i < j)%nat) as [|Hge]; [done|exfalso].
    destruct (decide (i = j)) as [->|Hne].
    + rewrite Hx in Hy. injection Hy as ->. lia.
    + assert (j < i)%nat as Hlt by lia.
      pose proof (StronglySorted_lookup_lt Dashboard.orderBy _
                    (StronglySorted_merge_sort (Transitive0 := orderBy_transitive)
                       (Total0 := orderBy_total) _ _) j i y x Hlt Hy Hx) as Hyx.
      unfold Dashboard.orderBy in Hyx. lia.
  - intros member Hin Hcid Hactive. unfold Dashboard.leaderboard.
    apply list_elem_of_In, in_map, list_elem_of_In.
    by apply findMany_challengeMember_elem.
Qed.

Lemma C2_ranking_order_witness :
  let board := Dashboard.leaderboard sample_db "c1" in
  let first := Dashboard.Entry.mk "ada" "ada_lc" 5 10 2 7 9 "77.78" in
  let second := Dashboard.Entry.mk "bob" "bob_lc" 5 10 5 0 0 "0.00" in
  board = [first; second]
  /\ ranked_before first second
  /\ (0 < 1)%nat
  /\ Dashboard.leaderboardEntry sample_db bob ∈ board.
Proof.
  intros board first second.
  destruct (C2_ranking_order sample_db "c1") as (Hnext & Hties & Hpresent).
  split; [reflexivity|]. split; [|split].
  - apply (Hnext 0%nat first second); reflexivity.
  - apply (Hties 0%nat 1%nat first second); reflexivity.
  - apply Hpresent; [|reflexivity..].
    apply list_elem_of_In. cbn. by left.
Defined.

(** ** The rate as a text *)

Lemma is_digit_digit d : 0 <= d <= 9 -> is_digit (Dashboard.digit d) = true.
Proof.
  intros Hd. unfold Dashboard.digit.
  assert (Z.to_nat d < 10)%nat as Hk by lia.
  generalize dependent (Z.to_nat d). intros k Hk.
  do 10 (destruct k as [|k]; [reflexivity|]). lia.
Qed.

Lemma is_digit_not_point c : is_digit c = true -> Ascii.eqb c "." = false.
Proof. intros Hc. destruct (Ascii.eqb_spec c "."); [by subst|done]. Qed.

Lemma decimal_aux_digits fuel : forall n acc,
  all_digits acc = true ->
  all_digits (Dashboard.decimal_aux fuel n acc) = true
  /\ Dashboard.decimal_aux fuel n acc <> EmptyString.
Proof.
  induction fuel as [|fuel IH]; intros n acc Hacc; cbn [Dashboard.decimal_aux].
  - split; [|done]. cbn. rewrite Hacc, is_digit_digit; [done|].
    pose proof (Z.mod_pos_bound n 10). lia.
  - assert (all_digits (String (Dashboard.digit (n mod 10)) acc) = true) as Hacc'.
    { cbn. rewrite Hacc, is_digit_digit; [done|].
      pose proof (Z.mod_pos_bound n 10). lia. }
    destruct (n <? 10); [by split|]. by apply IH.
Qed.

Lemma append_cons c (s t : string) : String c s +:+ t = String c (s +:+ t).
Proof. reflexivity. Qed.

Lemma two_decimals_append ip d1 d2 :
  ip <> EmptyString -> all_digits ip = true ->
  is_digit d1 = true -> is_digit d2 = true ->
  two_decimals (ip +:+ String "." (String d1 (String d2 EmptyString))) = true.
Proof.
  intros Hne Hip H1 H2. induction ip as [|c ip IH]; [done|].
  cbn in Hip. apply andb_prop in Hip as [Hc Hip].
  rewrite append_cons. cbn [two_decimals]. rewrite Hc. cbn [andb].
  destruct ip as [|c' ip'].
  - change (EmptyString +:+ ?t) with t. cbn. by rewrite H1, H2.
  - pose proof Hip as Hip0.
    cbn in Hip. apply andb_prop in Hip as [Hc' Hip'].
    rewrite append_cons at 1. rewrite (is_digit_not_point c') by done.
    by apply IH.
Qed.

Lemma render_hundredths_two_decimals n :
  two_decimals (Dashboard.render_hundredths n) = true.
Proof.
  unfold Dashboard.render_hundredths, Dashboard.decimal.
  destruct (decimal_aux_digits (Z.to_nat (Z.log2 (n / 100))) (n / 100) EmptyString)
    as [Hdigits Hne]; [done|].
  apply two_decimals_append; try done.
  - apply is_digit_digit. pose proof (Z.mod_pos_bound (n / 10) 10). lia.
  - apply is_digit_digit. pose proof (Z.mod_pos_bound n 10). lia.
Qed.

(** ** Binary64 rounding *)

Section Rate.
Import JSNumber Dashboard.

Lemma pow2_pos k : (0 < pow2 k)%Q.
Proof. apply Qpower_0_lt. reflexivity. Qed.

Lemma pow2_add a b : (pow2 (a + b) == pow2 a * pow2 b)%Q.
Proof. apply Qpower_plus. discriminate. Qed.

Lemma pow2_le a b : a <= b -> (pow2 a <= pow2 b)%Q.
Proof. intros H. apply Qpower_le_compat_l; [done|]. discriminate. Qed.

Lemma pow2_lt a b : a < b -> (pow2 a < pow2 b)%Q.
Proof. intros H. apply Qpower_lt_compat_l; [done|]. reflexivity. Qed.

Lemma pow2_lt_inv a b : (pow2 a < pow2 b)%Q -> a < b.
Proof.
  intros H. destruct (Z.lt_ge_cases a b) as [|Hge]; [done|].
  apply pow2_le in Hge. lra.
Qed.

Lemma pow2_int k : 0 <= k -> (pow2 k == inject_Z (2 ^ k))%Q.
Proof. intros H. unfold pow2. by rewrite Zpower_Qpower. Qed.

Lemma pow2_sub a b : (pow2 (a - b) == pow2 a / pow2 b)%Q.
Proof.
  unfold pow2. apply Qpower_minus. discriminate.
Qed.

Lemma floor_spec x :
  (inject_Z (Qfloor x) <= x /\ x < inject_Z (Qfloor x) + 1)%Q.
Proof.
  split; [apply Qfloor_le|].
  pose proof (Qlt_floor x) as H. rewrite inject_Z_plus in H. exact H.
Qed.

Lemma inject_Z_succ z : (inject_Z (z + 1) == inject_Z z + 1)%Q.
Proof. by rewrite inject_Z_plus. Qed.

Lemma inject_Z_le_inv a b : (inject_Z a <= inject_Z b)%Q -> a <= b.
Proof. by rewrite <- Zle_Qle. Qed.

Lemma inject_Z_lt_inv a b : (inject_Z a < inject_Z b)%Q -> a < b.
Proof. by rewrite <- Zlt_Qlt. Qed.

Lemma ilog2_spec q :
  (0 < q)%Q -> (pow2 (ilog2 q) <= q /\ q < pow2 (ilog2 q + 1))%Q.
Proof.
  intros Hq. destruct q as [n d].
  assert (0 < n) as Hn by (unfold Qlt in Hq; cbn in Hq; lia).
  pose proof (Z.log2_spec n Hn) as [Hn1 Hn2].
  pose proof (Z.log2_spec (Z.pos d) ltac:(lia)) as [Hd1 Hd2].
  pose proof (Z.log2_nonneg n) as Hl1.
  pose proof (Z.log2_nonneg (Z.pos d)) as Hl2.
  set (l1 := Z.log2 n) in *. set (l2 := Z.log2 (Z.pos d)) in *.
  assert (n # d == inject_Z n / inject_Z (Z.pos d))%Q as Hdiv by apply Qmake_Qdiv.
  assert (0 < inject_Z (Z.pos d))%Q as HD by (rewrite <- (Zlt_Qlt 0); lia).
  assert (pow2 l1 <= inject_Z n)%Q as HN1.
  { rewrite pow2_int by done. by rewrite <- Zle_Qle. }
  assert (inject_Z n < pow2 (l1 + 1))%Q as HN2.
  { rewrite pow2_int by lia. by rewrite <- Zlt_Qlt. }
  assert (pow2 l2 <= inject_Z (Z.pos d))%Q as HD1.
  { rewrite pow2_int by done. by rewrite <- Zle_Qle. }
  assert (inject_Z (Z.pos d) < pow2 (l2 + 1))%Q as HD2.
  { rewrite pow2_int by lia. by rewrite <- Zlt_Qlt. }
  assert (n # d < pow2 (l1 - l2 + 1))%Q as Hupper.
  { rewrite Hdiv. apply Qlt_shift_div_r; [done|].
    pose proof (pow2_add (l1 - l2 + 1) l2) as Hadd.
    replace (l1 - l2 + 1 + l2) with (l1 + 1) in Hadd by lia.
    pose proof (pow2_pos (l1 - l2 + 1)).
    assert (pow2 (l1 - l2 + 1) * pow2 l2 <= pow2 (l1 - l2 + 1) * inject_Z (Z.pos d))%Q
      by (apply Qmult_le_l; done).
    lra. }
  assert (pow2 (l1 - l2 - 1) < n # d)%Q as Hlower.
  { rewrite Hdiv. apply Qlt_shift_div_l; [done|].
    pose proof (pow2_add (l1 - l2 - 1) (l2 + 1)) as Hadd.
    replace (l1 - l2 - 1 + (l2 + 1)) with l1 in Hadd by lia.
    pose proof (pow2_pos (l1 - l2 - 1)).
    assert (pow2 (l1 - l2 - 1) * inject_Z (Z.pos d) < pow2 (l1 - l2 - 1) * pow2 (l2 + 1))%Q
      by (apply Qmult_lt_l; done).
    lra. }
  unfold ilog2. cbn [Qnum Qden]. fold l1 l2.
  destruct (Qle_bool (pow2 (l1 - l2)) (n # d)) eqn:Hb.
  - apply Qle_bool_iff in Hb. by split.
  - replace (l1 - l2 - 1 + 1) with (l1 - l2) by lia. split; [lra|].
    apply Qnot_le_lt. intros Hle. apply Qle_bool_iff in Hle. congruence.
Qed.

Lemma ilog2_ge q a : (0 < q)%Q -> (pow2 a <= q)%Q -> a <= ilog2 q.
Proof.
  intros Hq Ha. destruct (ilog2_spec q Hq) as [_ Hup].
  assert (pow2 a < pow2 (ilog2 q + 1))%Q as Hlt by lra.
  apply pow2_lt_inv in Hlt. lia.
Qed.

Lemma ilog2_lt q a : (0 < q)%Q -> (q < pow2 a)%Q -> ilog2 q < a.
Proof.
  intros Hq Ha. destruct (ilog2_spec q Hq) as [Hlow _].
  assert (pow2 (ilog2 q) < pow2 a)%Q as Hlt by lra.
  by apply pow2_lt_inv in Hlt.
Qed.

Lemma ilog2_mono q q' : (0 < q)%Q -> (q <= q')%Q -> ilog2 q <= ilog2 q'.
Proof.
  intros Hq Hle. apply ilog2_ge; [lra|].
  destruct (ilog2_spec q Hq). lra.
Qed.

(** Rounding to the nearest integer. *)

Lemma rne_cases x :
  rne x = Qfloor x \/ rne x = Qfloor x + 1.
Proof.
  unfold rne. destruct (_ ?= _)%Q; [destruct (Z.even _)|..]; auto.
Qed.

Lemma rne_near x :
  (x - (1 # 2) <= inject_Z (rne x) /\ inject_Z (rne x) <= x + (1 # 2))%Q.
Proof.
  destruct (floor_spec x) as [Hlo Hhi]. unfold rne.
  destruct (Qcompare_spec (x - inject_Z (Qfloor x)) (1 # 2)) as [Heq|Hlt|Hgt].
  - destruct (Z.even _); rewrite ?inject_Z_succ; split; lra.
  - split; lra.
  - rewrite inject_Z_succ. split; lra.
Qed.

Lemma rne_le_int x N : (x <= inject_Z N)%Q -> rne x <= N.
Proof.
  intros Hx. destruct (floor_spec x) as [Hlo Hhi].
  assert (Qfloor x <= N) as Hf by (apply inject_Z_le_inv; lra).
  unfold rne.
  destruct (Qcompare_spec (x - inject_Z (Qfloor x)) (1 # 2)) as [Heq|Hlt|Hgt].
  - destruct (Z.even _); [done|].
    cut (Qfloor x < N); [lia|]. apply inject_Z_lt_inv. lra.
  - done.
  - cut (Qfloor x < N); [lia|]. apply inject_Z_lt_inv. lra.
Qed.

Lemma rne_ge_int x N : (inject_Z N <= x)%Q -> N <= rne x.
Proof.
  intros Hx. destruct (floor_spec x) as [Hlo Hhi].
  assert (N <= Qfloor x) as Hf.
  { cut (N < Qfloor x + 1); [lia|]. apply inject_Z_lt_inv.
    rewrite inject_Z_succ. lra. }
  destruct (rne_cases x) as [-> | ->]; lia.
Qed.

Lemma rne_mono x y : (x <= y)%Q -> rne x <= rne y.
Proof.
  intros Hxy.
  pose proof (Qfloor_resp_le x y Hxy) as Hf.
  destruct (floor_spec x) as [Hxlo Hxhi], (floor_spec y) as [Hylo Hyhi].
  destruct (Z.eq_dec (Qfloor x) (Qfloor y)) as [Heq|Hne].
  - unfold rne. rewrite <- Heq in *.
    destruct (Qcompare_spec (x - inject_Z (Qfloor x)) (1 # 2)) as [Hx|Hx|Hx],
             (Qcompare_spec (y - inject_Z (Qfloor x)) (1 # 2)) as [Hy|Hy|Hy];
      try destruct (Z.even _); try lia; lra.
  - destruct (rne_cases x) as [-> | ->], (rne_cases y) as [-> | ->]; lia.
Qed.

(** Rounding a positive rational to a binary64 value. *)

Lemma round_pos_eq q :
  round_pos q = (inject_Z (rne (q / pow2 (shift q))) * pow2 (shift q))%Q.
Proof. reflexivity. Qed.

Lemma scaled q s : (q / pow2 s * pow2 s == q)%Q.
Proof. pose proof (pow2_pos s). field. lra. Qed.

Lemma round_pos_nonneg q : (0 < q)%Q -> (0 <= round_pos q)%Q.
Proof.
  intros Hq. rewrite round_pos_eq. set (s := shift q).
  pose proof (pow2_pos s) as HP. pose proof (scaled q s) as Hy.
  assert (0 <= q / pow2 s)%Q as Hy0.
  { apply Qle_shift_div_l; [done|]. lra. }
  assert (0 <= rne (q / pow2 s)) as Hr by (by apply rne_ge_int).
  apply Qmult_le_0_compat; [|lra]. by rewrite <- (Zle_Qle 0).
Qed.

Lemma round_pos_upper q :
  (0 < q)%Q -> (round_pos q <= pow2 (Z.max (ilog2 q + 1) (shift q)))%Q.
Proof.
  intros Hq. rewrite round_pos_eq. set (s := shift q). set (E := ilog2 q).
  destruct (ilog2_spec q Hq) as [_ Hup]. fold E in Hup.
  pose proof (pow2_pos s) as HP.
  set (M := Z.max (E + 1 - s) 0).
  assert (q / pow2 s <= inject_Z (2 ^ M))%Q as Hy.
  { rewrite <- pow2_int by lia. apply Qle_shift_div_r; [done|].
    rewrite <- pow2_add.
    assert (pow2 (E + 1) <= pow2 (M + s))%Q by (apply pow2_le; lia). lra. }
  apply rne_le_int in Hy.
  assert (inject_Z (rne (q / pow2 s)) <= inject_Z (2 ^ M))%Q as Hr
    by (by rewrite <- Zle_Qle).
  rewrite <- pow2_int in Hr by lia.
  replace (Z.max (E + 1) s) with (M + s) by lia.
  rewrite pow2_add. apply Qmult_le_compat_r; [done|lra].
Qed.

Lemma round_pos_lower q :
  (0 < q)%Q -> -1022 <= ilog2 q -> (pow2 (ilog2 q) <= round_pos q)%Q.
Proof.
  intros Hq Hnormal. rewrite round_pos_eq.
  assert (shift q = ilog2 q - 52) as -> by (unfold shift; lia).
  set (E := ilog2 q). set (s := E - 52).
  destruct (ilog2_spec q Hq) as [Hlow _]. fold E in Hlow.
  pose proof (pow2_pos s) as HP.
  assert (inject_Z (2 ^ 52) <= q / pow2 s)%Q as Hy.
  { rewrite <- pow2_int by lia. apply Qle_shift_div_l; [done|].
    rewrite <- pow2_add. replace (52 + s) with E by lia. done. }
  apply rne_ge_int in Hy.
  assert (inject_Z (2 ^ 52) <= inject_Z (rne (q / pow2 s)))%Q as Hr
    by (by rewrite <- Zle_Qle).
  rewrite <- pow2_int in Hr by lia.
  replace E with (52 + s) at 1 by lia.
  rewrite pow2_add. apply Qmult_le_compat_r; [done|lra].
Qed.

Lemma round_pos_mono q q' :
  (0 < q)%Q -> (q <= q')%Q -> (round_pos q <= round_pos q')%Q.
Proof.
  intros Hq Hle. assert (0 < q')%Q as Hq' by lra.
  pose proof (ilog2_mono q q' Hq Hle) as HE.
  destruct (Z.eq_dec (shift q) (shift q')) as [Heq|Hne].
  - rewrite !round_pos_eq, <- Heq. set (s := shift q).
    pose proof (pow2_pos s) as HP.
    assert (q / pow2 s <= q' / pow2 s)%Q as Hy.
    { apply Qle_shift_div_l; [done|]. rewrite scaled. done. }
    apply rne_mono in Hy.
    apply Qmult_le_compat_r; [|lra]. by rewrite <- Zle_Qle.
  - assert (shift q < shift q') as Hlt by (unfold shift in *; lia).
    assert (shift q' = ilog2 q' - 52 /\ -1022 <= ilog2 q') as [Hs' Hn']
      by (unfold shift in *; lia).
    pose proof (round_pos_upper q Hq) as Hup.
    pose proof (round_pos_lower q' Hq' Hn') as Hlow.
    assert (pow2 (Z.max (ilog2 q + 1) (shift q)) <= pow2 (ilog2 q'))%Q
      by (apply pow2_le; unfold shift in *; lia).
    lra.
Qed.

Lemma round_pos_error q :
  (0 < q)%Q -> -1022 <= ilog2 q ->
  (q - q * pow2 (-53) <= round_pos q /\ round_pos q <= q + q * pow2 (-53))%Q.
Proof.
  intros Hq Hnormal. rewrite round_pos_eq.
  assert (shift q = ilog2 q - 52) as -> by (unfold shift; lia).
  set (E := ilog2 q). set (s := E - 52).
  destruct (ilog2_spec q Hq) as [Hlow _]. fold E in Hlow.
  pose proof (pow2_pos s) as HP. pose proof (pow2_pos (-53)) as Hu.
  pose proof (scaled q s) as Hy.
  destruct (rne_near (q / pow2 s)) as [Hr1 Hr2].
  set (y := (q / pow2 s)%Q) in *. set (r := inject_Z (rne y)) in *.
  assert (pow2 s * (1 # 2) == pow2 E * pow2 (-53))%Q as Hhalf.
  { rewrite <- pow2_add. replace (E + -53) with (s + -1) by lia.
    rewrite pow2_add. reflexivity. }
  assert (pow2 E * pow2 (-53) <= q * pow2 (-53))%Q as Hbound
    by (apply Qmult_le_compat_r; [done|lra]).
  assert ((y - (1 # 2)) * pow2 s <= r * pow2 s)%Q as H1
    by (apply Qmult_le_compat_r; [done|lra]).
  assert (r * pow2 s <= (y + (1 # 2)) * pow2 s)%Q as H2
    by (apply Qmult_le_compat_r; [done|lra]).
  assert ((y - (1 # 2)) * pow2 s == q - pow2 s * (1 # 2))%Q as E1
    by (rewrite <- Hy; ring).
  assert ((y + (1 # 2)) * pow2 s == q + pow2 s * (1 # 2))%Q as E2
    by (rewrite <- Hy; ring).
  split; lra.
Qed.

(** Binary64 rounding of the rationals that are not negative. *)

Lemma fl_value_zero q : (q == 0)%Q -> fl_value q = 0%Q.
Proof. intros Hq. unfold fl_value. by destruct (Qcompare_spec q 0); [|lra..]. Qed.

Lemma fl_value_pos q : (0 < q)%Q -> fl_value q = round_pos q.
Proof. intros Hq. unfold fl_value. by destruct (Qcompare_spec q 0); [lra| lra|]. Qed.

Lemma fl_value_mono q q' :
  (0 <= q)%Q -> (q <= q')%Q -> (0 <= fl_value q /\ fl_value q <= fl_value q')%Q.
Proof.
  intros Hq Hle.
  destruct (Qlt_le_dec 0 q) as [Hpos|Hzero].
  - rewrite !fl_value_pos by lra. split.
    + by apply round_pos_nonneg.
    + by apply round_pos_mono.
  - rewrite (fl_value_zero q) by lra. split; [lra|].
    destruct (Qlt_le_dec 0 q') as [Hpos'|Hzero'].
    + rewrite fl_value_pos by done. by apply round_pos_nonneg.
    + rewrite fl_value_zero by lra. lra.
Qed.

Lemma fl_finite q :
  (0 <= fl_value q)%Q -> (fl_value q < pow2 1024)%Q -> fl q = Finite (fl_value q).
Proof.
  intros Hnonneg Hsmall. unfold fl.
  destruct (Qle_bool (pow2 1024) (Qabs (fl_value q))) eqn:Hb; [|done].
  apply Qle_bool_iff in Hb. rewrite Qabs_pos in Hb by done. lra.
Qed.

Lemma fl_value_one : (fl_value 1 == 1)%Q.
Proof. vm_compute. reflexivity. Qed.

Lemma fl_value_hundred : (fl_value (inject_Z 100) == 100)%Q.
Proof. vm_compute. reflexivity. Qed.

Lemma pow2_1024_large : (100 < pow2 1024)%Q.
Proof.
  assert (pow2 7 <= pow2 1024)%Q by (by apply pow2_le).
  assert (pow2 7 == 128)%Q by reflexivity. lra.
Qed.

(** ** Completion rate *)

Lemma counts_bounds (results : list Dashboard.Result.t) :
  0 <= Dashboard.countCompleted results <= Dashboard.countTotal results.
Proof.
  unfold Dashboard.countCompleted, Dashboard.countTotal.
  pose proof (filter_length_le Dashboard.Result.completed results). lia.
Qed.

Lemma quotient_range c t :
  0 <= c <= t -> 0 < t ->
  (0 <= inject_Z c / inject_Z t /\ inject_Z c / inject_Z t <= 1)%Q.
Proof.
  intros Hc Ht.
  assert (0 < inject_Z t)%Q as HT by (by rewrite <- (Zlt_Qlt 0)).
  assert (0 <= inject_Z c)%Q as HC by (rewrite <- (Zle_Qle 0); lia).
  assert (inject_Z c <= inject_Z t)%Q as HCT by (rewrite <- Zle_Qle; lia).
  split.
  - apply Qle_shift_div_l; [done|]. lra.
  - apply Qle_shift_div_r; [done|]. lra.
Qed.

Lemma completionRate_value c t :
  0 <= c <= t -> 0 < t ->
  completionRate c t = Finite (rate_value c t)
  /\ (0 <= rate_value c t /\ rate_value c t <= 100)%Q.
Proof.
  intros Hc Ht. unfold completionRate, rate_value.
  destruct (Z.ltb_spec 0 t); [|lia].
  destruct (quotient_range c t Hc Ht) as [Hq0 Hq1].
  set (q1 := (inject_Z c / inject_Z t)%Q) in *.
  destruct (fl_value_mono q1 1 Hq0 Hq1) as [Hv0 Hv1].
  pose proof fl_value_one as Hone. pose proof fl_value_hundred as Hhundred.
  pose proof pow2_1024_large as Hlarge.
  set (v1 := fl_value q1) in *.
  assert (0 <= v1 * inject_Z 100)%Q as Hq2
    by (change (inject_Z 100) with 100%Q; lra).
  assert (v1 * inject_Z 100 <= inject_Z 100)%Q as Hq2'
    by (change (inject_Z 100) with 100%Q; lra).
  destruct (fl_value_mono _ _ Hq2 Hq2') as [Hx0 Hx1].
  split; [|split; [done|lra]].
  unfold div, of_Z, JSNumber.is_zero.
  destruct (Qeq_bool (inject_Z t) 0) eqn:Hz.
  { apply Qeq_bool_eq in Hz. unfold Qeq in Hz. cbn in Hz. lia. }
  fold q1. rewrite (fl_finite q1) by (fold v1; lra).
  fold v1. unfold mul. apply fl_finite; lra.
Qed.

Lemma round_pos_relative q :
  (0 < q)%Q -> (pow2 (-1022) <= q)%Q ->
  (q - q * epsilon <= round_pos q /\ round_pos q <= q + q * epsilon)%Q.
Proof.
  intros Hq Hnormal.
  assert (pow2 (-53) == epsilon)%Q as Hu by reflexivity.
  rewrite <- Hu. apply round_pos_error; [done|]. by apply ilog2_ge.
Qed.

Lemma rate_value_error c t :
  1 <= c <= t -> t < 2 ^ 32 ->
  let exact := (inject_Z c / inject_Z t)%Q in
  (100 * exact - 300 * exact * epsilon <= rate_value c t
   /\ rate_value c t <= 100 * exact + 300 * exact * epsilon)%Q.
Proof.
  intros Hc Ht exact. unfold rate_value. fold exact.
  assert (0 < inject_Z t)%Q as HT by (rewrite <- (Zlt_Qlt 0); lia).
  assert (1 <= inject_Z c)%Q as HC by (rewrite <- (Zle_Qle 1); lia).
  change (2 ^ 32) with 4294967296 in Ht.
  assert (inject_Z t <= inject_Z 4294967296)%Q as HT' by (rewrite <- Zle_Qle; lia).
  change (inject_Z 4294967296) with 4294967296%Q in HT'.
  assert (pow2 (-32) == 1 # 4294967296)%Q as H32 by reflexivity.
  assert (pow2 (-1022) <= pow2 (-32))%Q as Hmin by (by apply pow2_le).
  assert (pow2 (-32) <= exact)%Q as Hexact.
  { apply Qle_shift_div_l; [done|]. rewrite H32. lra. }
  assert (0 < exact)%Q as Hpos by (pose proof (pow2_pos (-32)); lra).
  destruct (round_pos_relative exact Hpos ltac:(lra)) as [Hv1 Hv2].
  rewrite (fl_value_pos exact) by done.
  set (v1 := round_pos exact) in *. unfold epsilon in *.
  assert (0 < v1 * inject_Z 100)%Q as Hpos2 by (change (inject_Z 100) with 100%Q; lra).
  assert (pow2 (-1022) <= v1 * inject_Z 100)%Q as Hnormal2
    by (change (inject_Z 100) with 100%Q; lra).
  destruct (round_pos_relative _ Hpos2 Hnormal2) as [Hx1 Hx2].
  rewrite fl_value_pos by done. unfold epsilon in *.
  change (inject_Z 100) with 100%Q in *.
  split; lra.
Qed.

Lemma hundredths_range x :
  (0 <= x)%Q -> (x <= 100)%Q -> 0 <= hundredths x <= 10000.
Proof.
  intros H0 H100. unfold hundredths.
  assert (0 * 100 + (1 # 2) <= x * 100 + (1 # 2))%Q as Hlo by lra.
  assert (x * 100 + (1 # 2) <= 100 * 100 + (1 # 2))%Q as Hhi by lra.
  apply Qfloor_resp_le in Hlo, Hhi.
  change (Qfloor (0 * 100 + (1 # 2))) with 0 in Hlo.
  change (Qfloor (100 * 100 + (1 # 2))) with 10000 in Hhi. lia.
Qed.

Lemma rate_value_zero t : rate_value 0 t = 0%Q.
Proof.
  unfold rate_value.
  rewrite (fl_value_zero (inject_Z 0 / inject_Z t)).
  - by apply fl_value_zero.
  - unfold Qdiv. change (inject_Z 0) with 0%Q. ring.
Qed.

Lemma hundredths_near c t :
  0 <= c <= t -> 0 < t -> t < 2 ^ 32 ->
  let n := hundredths (rate_value c t) in
  20000 * c - t <= 2 * n * t <= 20000 * c + t.
Proof.
  intros Hc Ht Hbound n. subst n.
  destruct (Z.eq_dec c 0) as [->|Hne].
  { rewrite rate_value_zero. change (hundredths 0) with 0. lia. }
  destruct (rate_value_error c t ltac:(lia) Hbound) as [Hlo Hhi].
  cbv zeta in Hlo, Hhi.
  set (x := rate_value c t) in *. unfold hundredths.
  destruct (floor_spec (x * 100 + (1 # 2))) as [Hn1 Hn2].
  set (n := Qfloor (x * 100 + (1 # 2))) in *.
  change (2 ^ 32) with 4294967296 in Hbound.
  assert (0 < inject_Z t)%Q as HT by (rewrite <- (Zlt_Qlt 0); lia).
  assert (inject_Z c <= inject_Z 4294967296)%Q as HC by (rewrite <- Zle_Qle; lia).
  change (inject_Z 4294967296) with 4294967296%Q in HC.
  assert (inject_Z c / inject_Z t * inject_Z t == inject_Z c)%Q as Hexact
    by (field; lra).
  set (exact := (inject_Z c / inject_Z t)%Q) in *.
  set (C := inject_Z c) in *. set (T := inject_Z t) in *. set (N := inject_Z n) in *.
  unfold epsilon in *.
  assert (N * T <= (x * 100 + (1 # 2)) * T)%Q as Hup
    by (apply Qmult_le_compat_r; lra).
  assert ((x * 100 + (1 # 2)) * T <= (N + 1) * T)%Q as Hdown
    by (apply Qmult_le_compat_r; lra).
  assert (x * T <= (100 * exact + 300 * exact * (1 # 9007199254740992)) * T)%Q as Hx1
    by (apply Qmult_le_compat_r; lra).
  assert ((100 * exact - 300 * exact * (1 # 9007199254740992)) * T <= x * T)%Q as Hx2
    by (apply Qmult_le_compat_r; lra).
  assert ((100 * exact + 300 * exact * (1 # 9007199254740992)) * T
          == 100 * C + 300 * C * (1 # 9007199254740992))%Q as E1
    by (rewrite <- Hexact; ring).
  assert ((100 * exact - 300 * exact * (1 # 9007199254740992)) * T
          == 100 * C - 300 * C * (1 # 9007199254740992))%Q as E2
    by (rewrite <- Hexact; ring).
  assert ((x * 100 + (1 # 2)) * T == 100 * (x * T) + (1 # 2) * T)%Q as E3 by ring.
  assert ((N + 1) * T == N * T + T)%Q as E4 by ring.
  split.
  - cut (20000 * c - t - 1 < 2 * n * t); [lia|].
    rewrite Zlt_Qlt. unfold Z.sub.
    rewrite !inject_Z_plus, !inject_Z_opp, !inject_Z_mult.
    fold C T N. change (inject_Z 20000) with 20000%Q.
    change (inject_Z 2) with 2%Q. change (inject_Z 1) with 1%Q. lra.
  - cut (2 * n * t < 20000 * c + t + 1); [lia|].
    rewrite Zlt_Qlt.
    rewrite !inject_Z_plus, !inject_Z_mult.
    fold C T N. change (inject_Z 20000) with 20000%Q.
    change (inject_Z 2) with 2%Q. change (inject_Z 1) with 1%Q. lra.
Qed.

Lemma nearest_is_round c t n :
  0 < t -> 20000 * c - t <= 2 * n * t <= 20000 * c + t ->
  (20000 * c + t) mod (2 * t) <> 0 ->
  n = (20000 * c + t) / (2 * t).
Proof.
  intros Ht Hnear Htie.
  apply Z.div_unique with (r := 20000 * c + t - 2 * t * n); [|lia].
  left. split; [lia|].
  destruct (Z.eq_dec (2 * n * t) (20000 * c - t)) as [Heq|Hne]; [|lia].
  exfalso. apply Htie.
  replace (20000 * c + t) with ((n + 1) * (2 * t)) by lia.
  apply Z.mod_mul. lia.
Qed.

(** Reading back what was printed. *)

Lemma digit_read d :
  0 <= d <= 9 -> is_digit (digit d) = true /\ digit_number (digit d) = d.
Proof.
  intros Hd. unfold digit.
  assert (d = Z.of_nat (Z.to_nat d)) as Hnat by lia.
  assert (Z.to_nat d < 10)%nat as Hk by lia.
  rewrite Hnat at 3. generalize dependent (Z.to_nat d). intros k _ Hk.
  do 10 (destruct k as [|k]; [by split|]). lia.
Qed.

Lemma read_digits_cons_digit a d rest :
  0 <= d <= 9 ->
  read_digits a (String (digit d) rest) = read_digits (a * 10 + d) rest.
Proof.
  intros Hd. destruct (digit_read d Hd) as [Hdigit Hvalue].
  cbn [read_digits]. by rewrite Hdigit, Hvalue.
Qed.

Lemma read_digits_app a (s1 s2 : string) :
  read_digits a (s1 +:+ s2) = read_digits (read_digits a s1) s2.
Proof.
  revert a. induction s1 as [|c s1 IH]; intros a; [done|].
  change (String c s1 +:+ s2) with (String c (s1 +:+ s2)).
  cbn [read_digits]. by destruct (is_digit c).
Qed.

Lemma decimal_aux_read fuel : forall n rest,
  0 <= n < 10 ^ (Z.of_nat fuel + 1) ->
  exists k, 0 <= k /\
    forall a, read_digits a (decimal_aux fuel n rest)
              = read_digits (a * 10 ^ k + n) rest.
Proof.
  induction fuel as [|fuel IH]; intros n rest Hn.
  - exists 1. split; [lia|]. intros a. cbn [decimal_aux].
    change (10 ^ (Z.of_nat 0 + 1)) with 10 in Hn.
    rewrite Z.mod_small by lia. rewrite read_digits_cons_digit by lia.
    f_equal.
  - cbn [decimal_aux]. destruct (Z.ltb_spec n 10) as [Hsmall|Hbig].
    + exists 1. split; [lia|]. intros a.
      rewrite Z.mod_small by lia. rewrite read_digits_cons_digit by lia.
      f_equal.
    + destruct (IH (n / 10) (String (digit (n mod 10)) rest)) as (k & Hk & Hread).
      { split; [apply Z.div_pos; lia|].
        apply Z.div_lt_upper_bound; [lia|].
        replace (Z.of_nat (S fuel) + 1) with (Z.succ (Z.of_nat fuel + 1)) in Hn by lia.
        rewrite Z.pow_succ_r in Hn by lia. lia. }
      exists (k + 1). split; [lia|]. intros a. rewrite Hread.
      pose proof (Z.mod_pos_bound n 10 ltac:(lia)).
      rewrite read_digits_cons_digit by lia. f_equal.
      rewrite Z.pow_add_r by lia. pose proof (Z.div_mod n 10 ltac:(lia)). lia.
Qed.

Lemma decimal_read n : 0 <= n -> read_digits 0 (decimal n) = n.
Proof.
  intros Hn. unfold decimal.
  destruct (decimal_aux_read (Z.to_nat (Z.log2 n)) n "") as (k & _ & Hread).
  { split; [done|]. rewrite Z2Nat.id by apply Z.log2_nonneg.
    destruct (Z.eq_dec n 0) as [->|Hne]; [done|].
    pose proof (Z.log2_spec n ltac:(lia)) as [_ Hlog].
    pose proof (Z.log2_nonneg n).
    assert (2 ^ Z.succ (Z.log2 n) <= 10 ^ Z.succ (Z.log2 n))
      by (apply Z.pow_le_mono_l; lia).
    replace (Z.log2 n + 1) with (Z.succ (Z.log2 n)) by lia. lia. }
  rewrite Hread. cbn [read_digits]. lia.
Qed.

Lemma render_hundredths_read n :
  0 <= n -> read_hundredths (render_hundredths n) = n.
Proof.
  intros Hn. unfold read_hundredths, render_hundredths.
  rewrite read_digits_app, decimal_read by (apply Z.div_pos; lia).
  change (read_digits ?a (String "." ?rest)) with (read_digits a rest).
  pose proof (Z.mod_pos_bound (n / 10) 10 ltac:(lia)).
  pose proof (Z.mod_pos_bound n 10 ltac:(lia)).
  rewrite !read_digits_cons_digit by lia. cbn [read_digits].
  pose proof (Z.div_mod n 10 ltac:(lia)).
  pose proof (Z.div_mod (n / 10) 10 ltac:(lia)).
  rewrite Z.div_div in * by lia. change (10 * 10) with 100 in *. lia.
Qed.

(** The printed text has no zero in front of its integer part. *)

Lemma decimal_aux_head fuel : forall n acc,
  0 < n < 10 ^ (Z.of_nat fuel + 1) ->
  exists d rest,
    1 <= d <= 9 /\ decimal_aux fuel n acc = String (digit d) rest.
Proof.
  induction fuel as [|fuel IH]; intros n acc Hn; cbn [decimal_aux].
  - change (10 ^ (Z.of_nat 0 + 1)) with 10 in Hn.
    exists n, acc. split; [lia|]. by rewrite Z.mod_small by lia.
  - destruct (Z.ltb_spec n 10) as [Hsmall|Hbig].
    + exists n, acc. split; [lia|]. by rewrite Z.mod_small by lia.
    + apply IH. split; [apply Z.div_str_pos; lia|].
      apply Z.div_lt_upper_bound; [lia|].
      replace (Z.of_nat (S fuel) + 1) with (Z.succ (Z.of_nat fuel + 1)) in Hn by lia.
      rewrite Z.pow_succ_r in Hn by lia. lia.
Qed.

Lemma no_leading_zero_digit d rest :
  1 <= d <= 9 -> no_leading_zero (String (digit d) rest) = true.
Proof.
  intros Hd. unfold digit.
  assert (1 <= Z.to_nat d < 10)%nat as Hk by lia.
  generalize dependent (Z.to_nat d). intros k Hk.
  destruct k as [|k]; [lia|].
  do 9 (destruct k as [|k]; [reflexivity|]). lia.
Qed.

Lemma render_hundredths_no_leading_zero n :
  0 <= n -> no_leading_zero (render_hundredths n) = true.
Proof.
  intros Hn. unfold render_hundredths.
  assert (0 <= n / 100) as Hm by (apply Z.div_pos; lia).
  destruct (Z.eq_dec (n / 100) 0) as [->|Hne]; [reflexivity|].
  unfold decimal.
  destruct (decimal_aux_head (Z.to_nat (Z.log2 (n / 100))) (n / 100) "")
    as (d & rest & Hd & ->).
  { split; [lia|]. rewrite Z2Nat.id by apply Z.log2_nonneg.
    pose proof (Z.log2_spec (n / 100) ltac:(lia)) as [_ Hlog].
    pose proof (Z.log2_nonneg (n / 100)).
    assert (2 ^ Z.succ (Z.log2 (n / 100)) <= 10 ^ Z.succ (Z.log2 (n / 100)))
      by (apply Z.pow_le_mono_l; lia).
    replace (Z.log2 (n / 100) + 1) with (Z.succ (Z.log2 (n / 100))) by lia. lia. }
  change (String (digit d) rest +:+ ?s) with (String (digit d) (rest +:+ s)).
  by apply no_leading_zero_digit.
Qed.

(** What [toFixed(2)] prints for a number that is not negative. *)

Lemma hundredths_nonneg x : (0 <= x)%Q -> 0 <= hundredths x.
Proof.
  intros Hx. unfold hundredths.
  assert (0 * 100 + (1 # 2) <= x * 100 + (1 # 2))%Q as Hlo by lra.
  apply Qfloor_resp_le in Hlo.
  by change (Qfloor (0 * 100 + (1 # 2))) with 0 in Hlo.
Qed.

Lemma hundredths_mono x y : (x <= y)%Q -> hundredths x <= hundredths y.
Proof. intros Hxy. unfold hundredths. apply Qfloor_resp_le. lra. Qed.

Lemma hundredths_nearest x : nearest_hundredths x (hundredths x).
Proof.
  unfold nearest_hundredths, hundredths.
  destruct (floor_spec (x * 100 + (1 # 2))) as [Hlo Hhi]. split; lra.
Qed.

Lemma toFixed2_nonneg x :
  (0 <= x)%Q -> toFixed2 (Finite x) = render_hundredths (hundredths x).
Proof.
  intros Hx. unfold toFixed2.
  destruct (Qle_bool 0 x) eqn:Hsign; [done|].
  apply Qle_bool_iff in Hx. congruence.
Qed.

Lemma toFixed2_read x :
  (0 <= x)%Q -> read_hundredths (toFixed2 (Finite x)) = hundredths x.
Proof.
  intros Hx. rewrite toFixed2_nonneg by done.
  by apply render_hundredths_read, hundredths_nonneg.
Qed.

(** The rate grows with the completed days, and all days completed
    give exactly 100. *)

Lemma rate_value_mono c1 c2 t :
  0 <= c1 <= c2 -> 0 < t ->
  (0 <= rate_value c1 t /\ rate_value c1 t <= rate_value c2 t)%Q.
Proof.
  intros Hc Ht. unfold rate_value.
  assert (0 < inject_Z t)%Q as HT by (by rewrite <- (Zlt_Qlt 0)).
  assert (0 <= inject_Z c1)%Q as HC1 by (rewrite <- (Zle_Qle 0); lia).
  assert (inject_Z c1 <= inject_Z c2)%Q as HC by (rewrite <- Zle_Qle; lia).
  assert (0 <= inject_Z c1 / inject_Z t)%Q as Hq0.
  { apply Qle_shift_div_l; [done|]. lra. }
  assert (inject_Z c1 / inject_Z t <= inject_Z c2 / inject_Z t)%Q as Hq.
  { apply Qle_shift_div_l; [done|].
    assert (inject_Z c1 / inject_Z t * inject_Z t == inject_Z c1)%Q as ->
      by (field; lra).
    done. }
  destruct (fl_value_mono _ _ Hq0 Hq) as [Hv0 Hv].
  apply fl_value_mono; change (inject_Z 100) with 100%Q; lra.
Qed.

Lemma rate_value_all t : 0 < t -> (rate_value t t == 100)%Q.
Proof.
  intros Ht. unfold rate_value.
  assert (0 < inject_Z t)%Q as HT by (by rewrite <- (Zlt_Qlt 0)).
  assert (inject_Z t / inject_Z t == 1)%Q as Hone by (field; lra).
  assert (0 <= 1)%Q as H01 by lra.
  destruct (fl_value_mono 1 (inject_Z t / inject_Z t) H01 ltac:(lra)) as [_ Hlo].
  destruct (fl_value_mono (inject_Z t / inject_Z t) 1 ltac:(lra) ltac:(lra))
    as [_ Hhi].
  pose proof fl_value_one as Hv. pose proof fl_value_hundred as Hh.
  set (v := fl_value (inject_Z t / inject_Z t)) in *.
  assert (0 <= inject_Z 100)%Q as H0 by (change (inject_Z 100) with 100%Q; lra).
  destruct (fl_value_mono (inject_Z 100) (v * inject_Z 100) H0
              ltac:(change (inject_Z 100) with 100%Q; lra)) as [_ Hlo'].
  destruct (fl_value_mono (v * inject_Z 100) (inject_Z 100)
              ltac:(change (inject_Z 100) with 100%Q; lra)
              ltac:(change (inject_Z 100) with 100%Q; lra)) as [_ Hhi'].
  lra.
Qed.

(** The rate of [c] days out of [t] is a finite number between 0 and
    100, and what is printed reads as its nearest hundredths. *)
Lemma completionRate_finite c t :
  0 <= c <= t ->
  exists x,
    completionRate c t = Finite x
    /\ (0 <= x /\ x <= 100)%Q
    /\ (0 < t -> x = rate_value c t)
    /\ (t = 0 -> x = 0%Q).
Proof.
  intros Hc. destruct (Z.eq_dec t 0) as [->|Hne].
  - exists 0%Q. repeat split; try done; lia.
  - destruct (completionRate_value c t Hc ltac:(lia)) as [Hfin Hrange].
    exists (rate_value c t). repeat split; try done; apply Hrange.
Qed.

Lemma In_upto (n : nat) z : 1 <= z <= Z.of_nat n -> In z (Float64.upto n).
Proof.
  induction n as [|n IH]; intros Hz; [lia|].
  cbn [Float64.upto]. apply in_or_app.
  destruct (Z.eq_dec z (Z.of_nat (S n))) as [->|Hne]; [right; by left|].
  left. apply IH. lia.
Qed.

Lemma ties_print_round_half_up_spec (n : nat) c t :
  ties_print_round_half_up n = true ->
  0 <= c <= t -> 1 <= t <= Z.of_nat n ->
  tie_prints_round_half_up c t = true.
Proof.
  intros Hall Hc Ht. unfold ties_print_round_half_up in Hall.
  rewrite forallb_forall in Hall.
  specialize (Hall t (In_upto n t Ht)). cbv beta in Hall.
  rewrite forallb_forall in Hall. apply Hall.
  destruct (Z.eq_dec c 0) as [->|Hne]; [by left|right].
  apply In_upto. lia.
Qed.

Lemma ties_print_round_half_up_159 : ties_print_round_half_up 159 = true.
Proof. vm_compute. reflexivity. Qed.

(** With fewer than 160 days, what is printed is the quotient rounded
    half up: by the error bound when the quotient is not halfway
    between two hundredths, and by computing each of the other
    cases. *)
Lemma fewer_than_160_days c t :
  0 <= c <= t -> 0 < t < 160 ->
  read_hundredths (toFixed2 (completionRate c t)) = round_half_up c t.
Proof.
  intros Hc Ht.
  pose proof (ties_print_round_half_up_spec 159 c t
                ties_print_round_half_up_159 Hc) as Hties.
  change (Z.of_nat 159) with 159 in Hties. specialize (Hties ltac:(lia)).
  unfold tie_prints_round_half_up in Hties.
  destruct (Z.eqb_spec ((20000 * c + t) mod (2 * t)) 0) as [Htie|Hfree].
  - by apply Z.eqb_eq.
  - destruct (completionRate_value c t Hc ltac:(lia)) as [-> [H0 H100]].
    rewrite toFixed2_read by done. unfold round_half_up.
    apply nearest_is_round; [lia| |done].
    apply (hundredths_near c t Hc); [lia|].
    change (2 ^ 32) with 4294967296. lia.
Qed.

Lemma rate_is_shown c t :
  0 <= c <= t -> shows_rate c t (toFixed2 (completionRate c t)).
Proof.
  intros Hc.
  destruct (completionRate_finite c t Hc) as (x & Hfin & [H0 H100] & Hpos & Hzero).
  exists x. rewrite Hfin.
  pose proof (hundredths_range x H0 H100) as Hrange.
  rewrite (toFixed2_read x H0).
  split; [done|]. split; [done|]. split.
  { rewrite toFixed2_nonneg by done. apply render_hundredths_two_decimals. }
  split.
  { rewrite toFixed2_nonneg by done.
    apply render_hundredths_no_leading_zero. lia. }
  split; [apply hundredths_nearest|]. split; [done|]. split.
  { intros Ht. by rewrite (Hzero Ht). }
  split.
  - intros [Ht Hbound]. rewrite (Hpos Ht).
    pose proof (hundredths_near c t Hc Ht Hbound) as Hnear. cbv zeta in Hnear.
    split; [lia|]. unfold is_tie, round_half_up. intros Htie.
    by apply nearest_is_round.
  - intros Ht.
    rewrite <- (toFixed2_read x H0), <- Hfin. by apply fewer_than_160_days.
Qed.

End Rate.

(** The binary64 model computes what the processor computes: for every
    rate of up to 64 days, and of 160 and of 320 days. *)
Example completionRate_as_the_processor :
  Float64.agree_for (Float64.upto 64 ++ [160; 320]) = true.
Proof. vm_compute. reflexivity. Qed.

(** C5 as stated fails. [eve] completed 23 days out of 160, so that
    [100 * 23 / 160] is 14.375, which rounds to 14.38, half up and half
    to even alike. The code divides first: the quotient [23 / 160] is
    not a binary64 value, the product of its rounding by 100 rounds to
    the binary64 value next below 14.375, and the leaderboard shows
    14.37. *)
Lemma C5_counterexample :
  let e := Dashboard.leaderboardEntry long_db eve in
  Dashboard.Entry.completedDays e = 23
  /\ Dashboard.Entry.totalDays e = 160
  /\ Dashboard.Entry.completionRate e = "14.37"
  /\ Dashboard.completionRate 23 160
     = JSNumber.Finite (8092405580431359 # 562949953421312)
  /\ (8092405580431359 # 562949953421312 < 14375 # 1000)%Q
  /\ (100 * 23 # 160 == 14375 # 1000)%Q
  /\ round_half_up 23 160 = 1438
  /\ Z.even 1438 = true
  /\ read_hundredths (Dashboard.Entry.completionRate e) = 1437.
Proof. vm_compute. repeat split. Qed.

(** C5 as amended. In a leaderboard entry and in the progress
    statistics alike, the days are the counts of the member's daily
    results; the rate is a finite number between 0 and 100, never
    [NaN]; the rate shown is 0.00 when there are no days and otherwise
    a hundredth nearest to [100 * completedDays / totalDays]: that
    quotient rounded half up to two decimals unless it lies halfway
    between two hundredths, and in every case when there are fewer
    than 160 days. A member without daily results gets 0 completed
    days, 0 days and the rate 0.00: the division by zero is never
    evaluated. *)
Theorem C5_completion_rate db member (dailyResults : list Dashboard.Result.t) :
  let results := Dashboard.findMany_dailyResult db (Dashboard.Member.id member) in
  let e := Dashboard.leaderboardEntry db member in
  let p := Dashboard.progressStats member dailyResults in
  (Dashboard.Entry.totalDays e = Z.of_nat (length results)
   /\ Dashboard.Entry.completedDays e
      = Z.of_nat (length (List.filter Dashboard.Result.completed results))
   /\ shows_rate (Dashboard.Entry.completedDays e) (Dashboard.Entry.totalDays e)
                 (Dashboard.Entry.completionRate e))
  /\ (Dashboard.Stats.totalDays p = Z.of_nat (length dailyResults)
      /\ Dashboard.Stats.completedDays p
         = Z.of_nat (length (List.filter Dashboard.Result.completed dailyResults))
      /\ shows_rate (Dashboard.Stats.completedDays p) (Dashboard.Stats.totalDays p)
                    (Dashboard.Stats.completionRate p))
  /\ (results = [] ->
      Dashboard.Entry.completedDays e = 0 /\ Dashboard.Entry.totalDays e = 0
      /\ Dashboard.Entry.completionRate e = "0.00")
  /\ (dailyResults = [] ->
      Dashboard.Stats.completedDays p = 0 /\ Dashboard.Stats.totalDays p = 0
      /\ Dashboard.Stats.completionRate p = "0.00").
Proof.
  intros results e p. split; [|split; [|split]].
  - split; [reflexivity|]. split; [reflexivity|].
    apply (rate_is_shown (Dashboard.countCompleted results)
                         (Dashboard.countTotal results)), counts_bounds.
  - split; [reflexivity|]. split; [reflexivity|].
    apply (rate_is_shown (Dashboard.countCompleted dailyResults)
                         (Dashboard.countTotal dailyResults)), counts_bounds.
  - intros Hnone. subst e. unfold Dashboard.leaderboardEntry.
    fold results. rewrite Hnone. repeat split.
  - intros ->. repeat split.
Qed.

Lemma C5_completion_rate_witness :
  let bob_entry := Dashboard.leaderboardEntry sample_db bob in
  let ada_entry := Dashboard.leaderboardEntry sample_db ada in
  let eve_entry := Dashboard.leaderboardEntry long_db eve in
  let p := Dashboard.progressStats bob [] in
  (Dashboard.Entry.completedDays bob_entry = 0
   /\ Dashboard.Entry.totalDays bob_entry = 0
   /\ Dashboard.Entry.completionRate bob_entry = "0.00")
  /\ (Dashboard.Stats.completedDays p = 0 /\ Dashboard.Stats.totalDays p = 0
      /\ Dashboard.Stats.completionRate p = "0.00")
  /\ Dashboard.Entry.completionRate ada_entry = "77.78"
  /\ shows_rate 7 9 "77.78"
  /\ round_half_up 7 9 = 7778
  /\ Dashboard.Entry.completionRate eve_entry = "14.37"
  /\ shows_rate 23 160 "14.37".
Proof.
  intros bob_entry ada_entry eve_entry p.
  destruct (C5_completion_rate sample_db bob []) as (_ & _ & Hentry & Hstats).
  destruct (C5_completion_rate sample_db ada []) as ((_ & _ & Hada) & _).
  destruct (C5_completion_rate long_db eve []) as ((_ & _ & Heve) & _).
  split; [|split; [|split; [|split; [|split; [|split]]]]].
  - apply Hentry. reflexivity.
  - apply Hstats. reflexivity.
  - vm_compute. reflexivity.
  - exact Hada.
  - reflexivity.
  - vm_compute. reflexivity.
  - exact Heve.
Defined.

(** C10. At the boundary, the [completionRate] of a leaderboard entry
    and of the progress statistics is a string, not a number: the text
    that writes the rate computed from the two counts with exactly two
    digits after the point, the hundredths nearest to the rate, and
    ["0.00"] when there are no days. The day counts are numbers, and
    the failed days are the days less the completed days. *)
Theorem C10_rate_is_text db member (dailyResults : list Dashboard.Result.t) :
  let results := Dashboard.findMany_dailyResult db (Dashboard.Member.id member) in
  let e := Dashboard.entry_value (Dashboard.leaderboardEntry db member) in
  let p := Dashboard.stats_value (Dashboard.progressStats member dailyResults) in
  (exists shown rate,
      Dashboard.property "completionRate" e = Some (VStr shown)
      /\ Dashboard.property "completedDays" e
         = Some (VNum (Dashboard.countCompleted results))
      /\ Dashboard.property "totalDays" e
         = Some (VNum (Dashboard.countTotal results))
      /\ Dashboard.completionRate (Dashboard.countCompleted results)
                                  (Dashboard.countTotal results)
         = JSNumber.Finite rate
      /\ two_decimals shown = true
      /\ no_leading_zero shown = true
      /\ nearest_hundredths rate (read_hundredths shown)
      /\ (results = [] -> shown = "0.00"))
  /\ (exists shown rate,
        Dashboard.property "completionRate" p = Some (VStr shown)
        /\ Dashboard.property "completedDays" p
           = Some (VNum (Dashboard.countCompleted dailyResults))
        /\ Dashboard.property "totalDays" p
           = Some (VNum (Dashboard.countTotal dailyResults))
        /\ Dashboard.property "failedDays" p
           = Some (VNum (Dashboard.countTotal dailyResults
                         - Dashboard.countCompleted dailyResults))
        /\ Dashboard.completionRate (Dashboard.countCompleted dailyResults)
                                    (Dashboard.countTotal dailyResults)
           = JSNumber.Finite rate
        /\ two_decimals shown = true
        /\ no_leading_zero shown = true
        /\ nearest_hundredths rate (read_hundredths shown)
        /\ (dailyResults = [] -> shown = "0.00")).
Proof.
  intros results e p. subst e p. split.
  - destruct (rate_is_shown _ _ (counts_bounds results))
      as (rate & Hrate & _ & Htext & Hzero & Hnear & _ & Hnone & _).
    eexists _, rate. split; [reflexivity|].
    split; [reflexivity|]. split; [reflexivity|].
    split; [exact Hrate|]. split; [exact Htext|]. split; [exact Hzero|].
    split; [exact Hnear|].
    intros Hno. apply Hnone. unfold Dashboard.countTotal. by rewrite Hno.
  - destruct (rate_is_shown _ _ (counts_bounds dailyResults))
      as (rate & Hrate & _ & Htext & Hzero & Hnear & _ & Hnone & _).
    eexists _, rate. split; [reflexivity|].
    split; [reflexivity|]. split; [reflexivity|]. split; [reflexivity|].
    split; [exact Hrate|]. split; [exact Htext|]. split; [exact Hzero|].
    split; [exact Hnear|].
    intros Hno. apply Hnone. unfold Dashboard.countTotal. by rewrite Hno.
Qed.

Lemma C10_rate_is_text_witness :
  let e := Dashboard.entry_value (Dashboard.leaderboardEntry sample_db ada) in
  let p := Dashboard.stats_value (Dashboard.progressStats ada []) in
  Dashboard.property "completionRate" e = Some (VStr "77.78")
  /\ Dashboard.property "completedDays" e = Some (VNum 7)
  /\ Dashboard.property "totalDays" e = Some (VNum 9)
  /\ (exists rate,
        Dashboard.completionRate 7 9 = JSNumber.Finite rate
        /\ nearest_hundredths rate 7778)
  /\ Dashboard.property "completionRate" p = Some (VStr "0.00")
  /\ Dashboard.property "failedDays" p = Some (VNum 0).
Proof.
  intros e p.
  destruct (C10_rate_is_text sample_db ada [])
    as ((shown & rate & Hshown & Hdone & Hall & Hrate & _ & _ & Hnear & _)
        & (shown' & _ & Hshown' & _ & _ & Hfailed & _ & _ & _ & _ & Hnone)).
  pose proof (Hnone eq_refl) as Hzero. subst shown'.
  assert (shown = "77.78") as ->.
  { assert (Some (VStr shown) = Some (VStr "77.78")) as Heq
      by (rewrite <- Hshown; vm_compute; reflexivity).
    by injection Heq. }
  split; [exact Hshown|]. split; [exact Hdone|]. split; [exact Hall|].
  split; [exists rate; by split|]. split; [exact Hshown'|exact Hfailed].
Defined.

(** * Further properties *)

(** ** The Fallback Store *)

(** X1. A read of the Fallback Store yields a value other than [null]
    only from an entry that has not expired (the instant [expiresAt]
    included), and then leaves the store as it is. A read of an expired
    entry yields [null] and removes the entry; a read of a missing key
    yields [null]. No read touches another key, and reading again at
    the same instant yields the same value. *)
Theorem memoryGet_lazy_expiry now key (m : gmap string Cache.cacheEntry) :
  let v := fst (Cache.memoryGet now key m) in
  let m' := snd (Cache.memoryGet now key m) in
  (forall k, k <> key -> m' !! k = m !! k)
  /\ (v <> VNull ->
      exists exp, m !! key = Some (Cache.mkEntry v exp) /\ now <= exp /\ m' = m)
  /\ (forall d exp, m !! key = Some (Cache.mkEntry d exp) ->
        (now <= exp -> v = d /\ m' = m)
        /\ (exp < now -> v = VNull /\ m' !! key = None))
  /\ (m !! key = None -> v = VNull /\ m' = m)
  /\ fst (Cache.memoryGet now key m') = v.
Proof.
  intros v m'. subst v m'. unfold Cache.memoryGet.
  destruct (m !! key) as [[d exp]|] eqn:Hm; cbn [Cache.expiresAt Cache.data].
  - destruct (Z.ltb_spec exp now) as [Hlt|Hle]; cbn [fst snd].
    + split; [intros k Hk; by apply lookup_delete_ne|].
      split; [done|]. split.
      { intros d' exp' [= <- <-]. split; [lia|].
        intros _. split; [done|]. apply lookup_delete_eq. }
      split; [done|]. by rewrite lookup_delete_eq.
    + split; [done|].
      split; [intros _; exists exp; repeat split; lia|]. split.
      { intros d' exp' [= <- <-]. split; [done|lia]. }
      split; [done|]. rewrite Hm. cbn.
      by destruct (Z.ltb_spec exp now); [lia|].
  - cbn. repeat split; try done. by rewrite Hm.
Qed.

Section ServiceEffects.
Context {codec : JSONCodec} {R : Type} {client : RedisClient R}.
Implicit Types (w : Cache.world R) (now : Z) (challengeId : string)
  (s : Redis.state R) (m : gmap string Cache.cacheEntry).

Lemma getLeaderboardCache_store now challengeId w :
  let key := Cache.buildKey challengeId in
  Cache.memoryCache (snd (Cache.getLeaderboardCache now challengeId w))
  = Cache.memoryCache w
  \/ Cache.memoryCache (snd (Cache.getLeaderboardCache now challengeId w))
     = snd (Cache.memoryGet now key (Cache.memoryCache w)).
Proof.
  intros key. destruct w as [m [[r|] [|]]]; unfold_get; fold key;
    try (right; by destruct (Cache.memoryGet now key m) as [v m'], (truthy v)).
  destruct (client_get key r) as [[[payload|]|err] r']; cbn.
  - destruct (String.eqb payload ""); [by left|].
    destruct (JSON_parse payload); [by left|].
    right; by destruct (Cache.memoryGet now key m) as [v m'], (truthy v).
  - by left.
  - right; by destruct (Cache.memoryGet now key m) as [v m'], (truthy v).
Qed.

(** X2. A read through the service never adds or rewrites an entry of
    the Fallback Store, whoever serves it: afterwards every other key
    is as before, and the key read is as before or, if its entry had
    expired, gone. In particular a value found in the durable cache is
    not copied into the Fallback Store. *)
Theorem getLeaderboardCache_never_populates now challengeId w :
  let key := Cache.buildKey challengeId in
  let m := Cache.memoryCache w in
  let m' := Cache.memoryCache (snd (Cache.getLeaderboardCache now challengeId w)) in
  (forall k, k <> key -> m' !! k = m !! k)
  /\ (m' !! key = m !! key
      \/ (m' !! key = None
          /\ exists d exp, m !! key = Some (Cache.mkEntry d exp) /\ exp < now))
  /\ (m !! key = None -> m' = m).
Proof.
  intros key m m'. subst m'.
  destruct (memoryGet_lazy_expiry now key m) as (Hother & _ & Hentry & Hnone & _).
  destruct (getLeaderboardCache_store now challengeId w) as [-> | ->];
    fold key m; [by auto|].
  split; [done|]. split.
  - destruct (m !! key) as [[d exp]|] eqn:Hm.
    + destruct (Hentry d exp eq_refl) as [Hlive Hdead].
      destruct (Z.le_gt_cases now exp) as [Hle|Hlt].
      * left. destruct (Hlive Hle) as [_ ->]. done.
      * right. destruct (Hdead Hlt) as [_ ->]. split; [done|]. by exists d, exp.
    + left. destruct (Hnone eq_refl) as [_ ->]. done.
  - intros Hm. by destruct (Hnone Hm) as [_ ->].
Qed.

End ServiceEffects.

(** ** Writes, removals and reads in sequence *)

Section Sequences.
Context {codec : JSONCodec} {R : Type} {client : RedisClient R}.
Implicit Types (w : Cache.world R) (now later : Z) (challengeId : string)
  (s : Redis.state R) (m : gmap string Cache.cacheEntry).

(** X3. The last write wins in the Fallback Store, expiry included:
    after two writes for one challenge the store is what the second
    write alone would have made it, so a longer TTL of the first write
    does not keep the entry alive and a shorter one does not cut it
    short. A read served by the Fallback Store returns the second array
    up to its own TTL and [null] after. *)
Theorem setLeaderboardCache_last_write_wins
  now1 now2 later challengeId d1 items (ttl1 ttl2 : option Z) w s :
  durable_fails (client_get (Cache.buildKey challengeId)) s = true ->
  let first := snd (Cache.setLeaderboardCache now1 challengeId d1 ttl1 w) in
  let second := snd (Cache.setLeaderboardCache now2 challengeId (VArr items) ttl2 first) in
  let alone := snd (Cache.setLeaderboardCache now2 challengeId (VArr items) ttl2 w) in
  let expiry := now2 + default Cache.DEFAULT_TTL ttl2 * 1000 in
  Cache.memoryCache second = Cache.memoryCache alone
  /\ (later <= expiry ->
      fst (Cache.getLeaderboardCache later challengeId
             (Cache.mkWorld (Cache.memoryCache second) s)) = Returns (VArr items))
  /\ (expiry < later ->
      fst (Cache.getLeaderboardCache later challengeId
             (Cache.mkWorld (Cache.memoryCache second) s)) = Returns VNull).
Proof.
  intros Hdown first second alone expiry. subst first second alone.
  rewrite !setLeaderboardCache_eq. cbn [snd Cache.memoryCache].
  unfold Cache.memorySet. rewrite insert_insert_eq.
  split; [done|].
  set (key := Cache.buildKey challengeId) in *.
  set (m2 := <[key := _]> (Cache.memoryCache w)).
  assert (m2 !! key = Some (Cache.mkEntry (VArr items) expiry)) as Hm
    by apply lookup_insert_eq.
  split; intros Htime; rewrite getLeaderboardCache_fallback by done;
    cbn [fst Cache.memoryCache]; f_equal.
  - by eapply fallback_read_live.
  - by eapply fallback_read_expired.
Qed.

(** X4. What the Fallback Store gives back is decided by JavaScript
    truthiness: within the TTL a read served by it returns the value
    written when that value is truthy, as every array is, the empty
    one too, and [null] when it is [null], [false], [0] or the empty
    string. *)
Theorem fallback_returns_truthy_values now later challengeId d (ttl : option Z) w s :
  durable_fails (client_get (Cache.buildKey challengeId)) s = true ->
  later <= now + default Cache.DEFAULT_TTL ttl * 1000 ->
  let written := snd (Cache.setLeaderboardCache now challengeId d ttl w) in
  fst (Cache.getLeaderboardCache later challengeId
         (Cache.mkWorld (Cache.memoryCache written) s))
  = Returns (if truthy d then d else VNull).
Proof.
  intros Hdown Htime written. subst written.
  rewrite setLeaderboardCache_eq. cbn [snd Cache.memoryCache].
  rewrite getLeaderboardCache_fallback by done. cbn [fst Cache.memoryCache].
  f_equal. unfold fallback_read, Cache.memoryGet, Cache.memorySet.
  rewrite lookup_insert_eq. cbn [Cache.expiresAt Cache.data].
  by destruct (Z.ltb_spec (now + default Cache.DEFAULT_TTL ttl * 1000) later);
    [lia|].
Qed.

(** X5. The durable cache has precedence. When the client is ready and
    its [get] yields a text that decodes, the read returns the decoded
    value even if the Fallback Store holds a live entry with another
    value, and the Fallback Store keeps that entry: the two stores are
    not reconciled. *)
Theorem durable_value_has_precedence now challengeId m (r r' : R) payload v d exp :
  client_get (Cache.buildKey challengeId) r = (Returns (Some payload), r') ->
  payload <> EmptyString ->
  JSON_parse payload = Returns v ->
  m !! Cache.buildKey challengeId = Some (Cache.mkEntry d exp) ->
  let after := Cache.getLeaderboardCache now challengeId
                 (Cache.mkWorld m (Redis.mkState (Some r) true)) in
  fst after = Returns v
  /\ Cache.memoryCache (snd after) !! Cache.buildKey challengeId
     = Some (Cache.mkEntry d exp).
Proof.
  intros Hget Hne Hparse Hm after. subst after.
  by erewrite getLeaderboardCache_hit.
Qed.

(** X6. After a removal, a read of the same challenge is a miss
    whenever the Fallback Store serves it, and whenever the durable
    cache answers that it holds nothing; only a text still held by the
    durable cache can make it a hit. *)
Theorem invalidate_then_get_misses now challengeId w s :
  let key := Cache.buildKey challengeId in
  durable_fails (client_get key) s = true
  \/ (exists r r', s = Redis.mkState (Some r) true
                   /\ client_get key r = (Returns None, r')) ->
  let removed := snd (Cache.invalidateLeaderboardCache challengeId w) in
  Cache.memoryCache removed !! key = None
  /\ fst (Cache.getLeaderboardCache now challengeId
            (Cache.mkWorld (Cache.memoryCache removed) s)) = Returns VNull.
Proof.
  intros key Hserved removed. subst removed.
  rewrite invalidateLeaderboardCache_eq. cbn [snd Cache.memoryCache].
  fold key. unfold Cache.memoryDel.
  split; [apply lookup_delete_eq|].
  destruct Hserved as [Hdown | (r & r' & -> & Hget)].
  - rewrite getLeaderboardCache_fallback by done. cbn [fst Cache.memoryCache].
    f_equal. apply fallback_read_absent, lookup_delete_eq.
  - erewrite getLeaderboardCache_miss; eauto.
Qed.

End Sequences.

(** A board written for an hour, then rewritten as the empty board for
    five seconds, while the client is not connected. *)
Lemma setLeaderboardCache_last_write_wins_witness :
  let w := sample_world ∅ false (Table.fresh true) in
  let first := snd (sample_set 0 "c1" sample_board (Some 3600) w) in
  let second := snd (sample_set 1000 "c1" (VArr []) (Some 5) first) in
  fst (sample_get 6000 "c1" second) = Returns (VArr [])
  /\ fst (sample_get 6001 "c1" second) = Returns VNull.
Proof.
  intros w first second.
  destruct (setLeaderboardCache_last_write_wins (codec := MiniJSON.codec)
              (client := Table.client) 0 1000 6000 "c1" sample_board [] (Some 3600)
              (Some 5) w (Cache.redis w) eq_refl) as (_ & Hlive & _).
  destruct (setLeaderboardCache_last_write_wins (codec := MiniJSON.codec)
              (client := Table.client) 0 1000 6001 "c1" sample_board [] (Some 3600)
              (Some 5) w (Cache.redis w) eq_refl) as (_ & _ & Hdead).
  split.
  - apply Hlive. cbn. lia.
  - apply Hdead. cbn. lia.
Defined.

(** The number [0] and the empty board, written and read back while the
    client is not connected. *)
Lemma fallback_returns_truthy_values_witness :
  let w := sample_world ∅ false (Table.fresh true) in
  fst (sample_get 500 "c1" (snd (sample_set 0 "c1" (VNum 0) None w))) = Returns VNull
  /\ fst (sample_get 500 "c1" (snd (sample_set 0 "c1" (VArr []) None w)))
     = Returns (VArr []).
Proof.
  intros w. split.
  - apply (fallback_returns_truthy_values (codec := MiniJSON.codec)
             (client := Table.client) 0 500 "c1" (VNum 0) None w (Cache.redis w) eq_refl).
    unfold Cache.DEFAULT_TTL. cbn. lia.
  - apply (fallback_returns_truthy_values (codec := MiniJSON.codec)
             (client := Table.client) 0 500 "c1" (VArr []) None w (Cache.redis w) eq_refl).
    unfold Cache.DEFAULT_TTL. cbn. lia.
Defined.

(** The durable cache holds the sample board, the Fallback Store a live
    empty board. *)
Lemma durable_value_has_precedence_witness :
  let m : gmap string Cache.cacheEntry :=
    {[ Cache.buildKey "c1" := Cache.mkEntry (VArr []) 60000 ]} in
  let after := sample_get 1000 "c1" (sample_world m true loaded_server) in
  fst after = Returns sample_board
  /\ Cache.memoryCache (snd after) !! Cache.buildKey "c1"
     = Some (Cache.mkEntry (VArr []) 60000).
Proof.
  intros m.
  apply (durable_value_has_precedence (codec := MiniJSON.codec)
           (client := Table.client) 1000 "c1" m loaded_server loaded_server
           (MiniJSON.stringify sample_board) sample_board (VArr []) 60000);
    [reflexivity | discriminate | reflexivity | reflexivity].
Defined.

(** A cached board is removed, then read, first with the client not
    connected, then with the client connected to an empty service. *)
Lemma invalidate_then_get_misses_witness :
  let m : gmap string Cache.cacheEntry :=
    {[ Cache.buildKey "c1" := Cache.mkEntry sample_board 60000 ]} in
  let removed := snd (sample_invalidate "c1" (sample_world m false (Table.fresh true))) in
  fst (sample_get 1000 "c1" removed) = Returns VNull
  /\ fst (sample_get 1000 "c1"
            (Cache.mkWorld (Cache.memoryCache removed)
               (Redis.mkState (Some (Table.fresh true)) true))) = Returns VNull.
Proof.
  intros m removed. split.
  - apply (invalidate_then_get_misses (codec := MiniJSON.codec)
             (client := Table.client) 1000 "c1"
             (sample_world m false (Table.fresh true))
             (Redis.mkState (Some (Table.fresh true)) false)).
    left. reflexivity.
  - apply (invalidate_then_get_misses (codec := MiniJSON.codec)
             (client := Table.client) 1000 "c1"
             (sample_world m false (Table.fresh true))
             (Redis.mkState (Some (Table.fresh true)) true)).
    right. exists (Table.fresh true), (Table.fresh true). by split.
Defined.

(** ** The leaderboard controller and its cache *)

Section Controller.
Context {codec : JSONCodec} {R : Type} {client : RedisClient R}.
Implicit Types (w : Cache.world R) (challengeId : string) (s : Redis.state R)
  (db : Dashboard.database).


(** X7. On a cache hit the controller answers with the cached value and
    nothing else happens: the database is not consulted, so the answer
    is the same for every database, and the cache is not written. *)
Theorem getChallengeLeaderboard_hit_ignores_database
  db now_get now_set challengeId w cachedData :
  fst (Cache.getLeaderboardCache now_get challengeId w) = Returns cachedData ->
  truthy cachedData = true ->
  Dashboard.getChallengeLeaderboard db now_get now_set challengeId w
  = (Returns cachedData, snd (Cache.getLeaderboardCache now_get challengeId w)).
Proof.
  intros Hcached Htruthy.
  destruct (getChallengeLeaderboard_response db now_get now_set challengeId w)
    as (v & Hv & ->).
  rewrite Hcached in Hv. injection Hv as <-. by rewrite Htruthy.
Qed.


End Controller.

(** The Fallback Store holds a board that differs from the ranking of
    the sample database. *)
Lemma getChallengeLeaderboard_hit_ignores_database_witness :
  let m : gmap string Cache.cacheEntry :=
    {[ Cache.buildKey "c1" := Cache.mkEntry sample_board 60000 ]} in
  let w := sample_world m false (Table.fresh true) in
  Dashboard.getChallengeLeaderboard (codec := MiniJSON.codec) (client := Table.client)
    sample_db 1000 1001 "c1" w
  = (Returns sample_board, w)
  /\ sample_board
     <> VArr (map Dashboard.entry_value (Dashboard.leaderboard sample_db "c1")).
Proof.
  intros m w. split; [|vm_compute; discriminate].
  apply (getChallengeLeaderboard_hit_ignores_database (codec := MiniJSON.codec)
           (client := Table.client) sample_db 1000 1001 "c1" w sample_board);
    reflexivity.
Defined.


(** ** Aggregation *)

(** X9. The board lists only active members of the challenge asked
    for, and as many entries as the database has such members: inactive
    members and members of other challenges never appear, and nobody is
    listed twice for one row. *)
Theorem leaderboard_lists_only_active_members db challengeId :
  let board := Dashboard.leaderboard db challengeId in
  (forall e, e ∈ board ->
     exists member,
       member ∈ Dashboard.challengeMember db
       /\ Dashboard.Member.challengeId member = challengeId
       /\ Dashboard.Member.isActive member = true
       /\ e = Dashboard.leaderboardEntry db member)
  /\ length board
     = length (List.filter
                 (fun m => String.eqb (Dashboard.Member.challengeId m) challengeId
                           && Dashboard.Member.isActive m)
                 (Dashboard.challengeMember db)).
Proof.
  intros board. subst board. unfold Dashboard.leaderboard. split.
  - intros e He. apply list_elem_of_In, in_map_iff in He as (member & <- & Hin).
    exists member. apply list_elem_of_In in Hin.
    unfold Dashboard.findMany_challengeMember in Hin.
    rewrite merge_sort_Permutation in Hin.
    apply list_elem_of_In, filter_In in Hin as [Hin Hwhere].
    apply andb_prop in Hwhere as [Hcid Hactive].
    apply String.eqb_eq in Hcid.
    repeat split; try done. by apply list_elem_of_In.
  - rewrite length_map. unfold Dashboard.findMany_challengeMember.
    apply Permutation_length, merge_sort_Permutation.
Qed.

(** X10. An entry counts the daily results of its own member only: a
    result recorded for another member leaves the entry unchanged, and
    a result recorded for the member adds one day, and one completed
    day when it is completed. The completed days never exceed the
    days. *)
Theorem leaderboardEntry_counts_own_results db member (r : Dashboard.Result.t) :
  let db' := Dashboard.mkDatabase (Dashboard.challengeMember db)
                                  (r :: Dashboard.dailyResult db) in
  let e := Dashboard.leaderboardEntry db member in
  let e' := Dashboard.leaderboardEntry db' member in
  0 <= Dashboard.Entry.completedDays e <= Dashboard.Entry.totalDays e
  /\ (Dashboard.Result.memberId r <> Dashboard.Member.id member -> e' = e)
  /\ (Dashboard.Result.memberId r = Dashboard.Member.id member ->
      Dashboard.Entry.totalDays e' = Dashboard.Entry.totalDays e + 1
      /\ Dashboard.Entry.completedDays e'
         = Dashboard.Entry.completedDays e
           + (if Dashboard.Result.completed r then 1 else 0)).
Proof.
  intros db' e e'. subst db' e e'. split; [apply counts_bounds|].
  unfold Dashboard.leaderboardEntry, Dashboard.findMany_dailyResult.
  cbn [Dashboard.dailyResult List.filter].
  destruct (String.eqb_spec (Dashboard.Result.memberId r) (Dashboard.Member.id member))
    as [Heq|Hne].
  - split; [done|]. intros _. cbn [Dashboard.Entry.totalDays Dashboard.Entry.completedDays].
    unfold Dashboard.countTotal, Dashboard.countCompleted. cbn [List.filter length].
    destruct (Dashboard.Result.completed r); cbn [length]; lia.
  - split; [done|]. intros Heq. by destruct Hne.
Qed.

(** X11. In the progress statistics the failed days are the daily
    results that are not completed: they are never negative, they
    never exceed the days, and completed and failed days add up to the
    days. The streaks and the penalties are the membership's. *)
Theorem progressStats_failed_days membership (dailyResults : list Dashboard.Result.t) :
  let p := Dashboard.progressStats membership dailyResults in
  Dashboard.Stats.failedDays p
  = Z.of_nat (length (List.filter (fun r => negb (Dashboard.Result.completed r))
                                  dailyResults))
  /\ 0 <= Dashboard.Stats.failedDays p <= Dashboard.Stats.totalDays p
  /\ Dashboard.Stats.completedDays p + Dashboard.Stats.failedDays p
     = Dashboard.Stats.totalDays p
  /\ Dashboard.Stats.currentStreak p = Dashboard.Member.currentStreak membership
  /\ Dashboard.Stats.longestStreak p = Dashboard.Member.longestStreak membership
  /\ Dashboard.Stats.totalPenalties p = Dashboard.Member.totalPenalties membership.
Proof.
  intros p. subst p. cbn.
  pose proof (counts_bounds dailyResults) as Hbounds.
  pose proof (List.filter_length Dashboard.Result.completed dailyResults) as Hsplit.
  unfold Dashboard.countTotal, Dashboard.countCompleted in *.
  repeat split; try done; lia.
Qed.

(** X12. The rate shown grows with the completed days: for a fixed
    number of days, more completed days never show a smaller rate.
    Zero completed days show 0.00, and all days completed show
    100.00. *)
Theorem completion_rate_is_monotone c1 c2 t :
  0 <= c1 <= c2 -> c2 <= t ->
  read_hundredths (Dashboard.toFixed2 (Dashboard.completionRate c1 t))
  <= read_hundredths (Dashboard.toFixed2 (Dashboard.completionRate c2 t))
  /\ Dashboard.toFixed2 (Dashboard.completionRate 0 t) = "0.00"
  /\ (0 < t -> Dashboard.toFixed2 (Dashboard.completionRate t t) = "100.00").
Proof.
  intros Hc Ht.
  split; [|split].
  - destruct (completionRate_finite c1 t ltac:(lia))
      as (x1 & -> & [Hx1 _] & Hpos1 & Hzero1).
    destruct (completionRate_finite c2 t ltac:(lia))
      as (x2 & -> & [Hx2 _] & Hpos2 & Hzero2).
    rewrite !toFixed2_read by done. apply hundredths_mono.
    destruct (Z.eq_dec t 0) as [Hnone|Hsome].
    + rewrite (Hzero1 Hnone), (Hzero2 Hnone). apply Qle_refl.
    + rewrite Hpos1, Hpos2 by lia. apply rate_value_mono; lia.
  - destruct (completionRate_finite 0 t ltac:(lia))
      as (x & -> & [Hx _] & Hpos & Hzero).
    destruct (Z.eq_dec t 0) as [Hnone|Hsome].
    + by rewrite (Hzero Hnone).
    + rewrite Hpos by lia. by rewrite rate_value_zero.
  - intros Hpos.
    destruct (completionRate_finite t t ltac:(lia))
      as (x & -> & [Hx _] & Hvalue & _).
    rewrite toFixed2_nonneg by done. rewrite (Hvalue Hpos).
    pose proof (rate_value_all t Hpos) as Hall.
    unfold Dashboard.hundredths.
    assert (rate_value t t * 100 + (1 # 2) == 100 * 100 + (1 # 2))%Q as ->
      by (rewrite Hall; reflexivity).
    reflexivity.
Qed.

Lemma leaderboardEntry_counts_own_results_witness :
  let other := Dashboard.Result.mk "m1" true 2 in
  let own := Dashboard.Result.mk "m2" true 2 in
  let extended r :=
    Dashboard.mkDatabase (Dashboard.challengeMember sample_db)
                         (r :: Dashboard.dailyResult sample_db) in
  Dashboard.leaderboardEntry (extended other) ada = Dashboard.leaderboardEntry sample_db ada
  /\ Dashboard.Entry.totalDays (Dashboard.leaderboardEntry (extended own) ada) = 9 + 1
  /\ Dashboard.Entry.completedDays (Dashboard.leaderboardEntry (extended own) ada) = 7 + 1.
Proof.
  intros other own extended.
  destruct (leaderboardEntry_counts_own_results sample_db ada other) as (_ & Hother & _).
  destruct (leaderboardEntry_counts_own_results sample_db ada own) as (_ & _ & Hown).
  split; [apply Hother; discriminate|].
  apply Hown. reflexivity.
Defined.

Lemma completion_rate_is_monotone_witness :
  read_hundredths (Dashboard.toFixed2 (Dashboard.completionRate 3 9))
  <= read_hundredths (Dashboard.toFixed2 (Dashboard.completionRate 7 9))
  /\ read_hundredths (Dashboard.toFixed2 (Dashboard.completionRate 22 160))
     <= read_hundredths (Dashboard.toFixed2 (Dashboard.completionRate 23 160))
  /\ Dashboard.toFixed2 (Dashboard.completionRate 0 9) = "0.00"
  /\ Dashboard.toFixed2 (Dashboard.completionRate 9 9) = "100.00".
Proof.
  destruct (completion_rate_is_monotone 3 7 9 ltac:(lia) ltac:(lia))
    as (Hle & Hnone & Hall).
  destruct (completion_rate_is_monotone 22 23 160 ltac:(lia) ltac:(lia))
    as (Hle' & _ & _).
  split; [exact Hle|]. split; [exact Hle'|]. split; [exact Hnone|].
  apply Hall. lia.
Defined.

(** ** Connection state *)

Lemma deliver_keeps_client {R} (es : list Redis.event) : forall s : Redis.state R,
  Redis.redisClient (Ioredis.deliver es s) = Redis.redisClient s.
Proof.
  induction es as [|e es IH]; intros s; [done|].
  change (Ioredis.deliver (e :: es) s)
    with (Ioredis.deliver es (Redis.on_event e s)).
  rewrite IH. by destruct e.
Qed.

(** X13. The handlers never assign [redisClient], and after any
    sequence of connection events the module reports ready exactly when
    a client was constructed and the last event was [connect]: an
    [error] or a [close] revokes readiness until the next [connect].
    When the constructor threw, no sequence of events makes the module
    ready. *)
Theorem readiness_follows_last_event {R} (s : Redis.state R)
  (es : list Redis.event) (e : Redis.event) :
  let s' := Ioredis.deliver (es ++ [e]) s in
  Redis.redisClient s' = Redis.redisClient s
  /\ Redis.isRedisReady s'
     = match Redis.redisClient s, e with
       | Some _, Redis.Connect => true
       | _, _ => false
       end
  /\ (forall err events,
        Redis.isRedisReady
          (Ioredis.deliver events (Redis.createRedisClient (R := R) (Throws err)))
        = false).
Proof.
  intros s'. subst s'. split; [apply deliver_keeps_client|]. split.
  - unfold Ioredis.deliver. rewrite fold_left_app. cbn [fold_left].
    fold (Ioredis.deliver es s).
    pose proof (deliver_keeps_client es s) as Hclient.
    unfold Redis.isRedisReady. destruct e; cbn; rewrite Hclient;
      by destruct (Redis.redisClient s).
  - intros err events. unfold Redis.isRedisReady.
    by rewrite deliver_keeps_client.
Qed.

(** X14. Every delay [retryStrategy] returns is [times * 500] and at
    most 1500 ms: the 2000 ms cap is never what the minimum selects,
    since the strategy gives up before [times * 500] can reach it. The
    delays grow strictly with the attempt number. *)
Theorem retryStrategy_cap_is_never_reached times delay :
  Redis.retryStrategy times = Some delay ->
  times <= 3
  /\ delay = times * 500
  /\ delay <= 1500
  /\ (forall times' delay',
        Redis.retryStrategy times' = Some delay' -> times < times' -> delay < delay').
Proof.
  unfold Redis.retryStrategy.
  destruct (Z.ltb_spec 3 times) as [|Hle]; [done|].
  intros [= <-]. repeat split; try lia.
  intros times' delay'. destruct (Z.ltb_spec 3 times'); [done|].
  intros [= <-]. lia.
Qed.

Lemma retryStrategy_cap_is_never_reached_witness :
  (3 <= 3 /\ 1500 = 3 * 500 /\ 1500 <= 1500)
  /\ Redis.retryStrategy 3 = Some 1500.
Proof.
  destruct (retryStrategy_cap_is_never_reached 3 1500 eq_refl) as (H1 & H2 & H3 & _).
  by repeat split.
Defined.

(** X15. [disconnectRedis] never throws, whatever [quit] does, and does
    nothing when no client was constructed. It does not assign
    [isConnected]: the module reports the same readiness after it as
    before, until the [close] event reaches the handler, which revokes
    it. *)
Theorem disconnectRedis_is_silent {R} (quit : R -> outcome unit * R)
  (s : Redis.state R) :
  let after := Redis.disconnectRedis quit s in
  fst after = Returns tt
  /\ Redis.isRedisReady (snd after) = Redis.isRedisReady s
  /\ Redis.isRedisReady (Redis.on_event Redis.Close (snd after)) = false
  /\ (Redis.redisClient s = None -> snd after = s).
Proof.
  intros after. subst after. unfold Redis.disconnectRedis, Redis.isRedisReady.
  destruct s as [[r|] connected]; cbn; [|done].
  by destruct (quit r) as [[[]|err] r'].
Qed.

(** ** Configuration *)

(** X16. [validateConfig] returns exactly when [DATABASE_URL],
    [JWT_SECRET] and [ENCRYPTION_KEY] are all set to non-empty strings.
    Otherwise it throws, and its message lists the configuration keys
    of exactly the variables that are unset or empty, in the order
    [databaseUrl], [jwtSecret], [encryptionKey], separated by a comma
    and a space. *)
Theorem validateConfig_checks_required (env : gmap string string) :
  let unset name := Env.falsy (env !! name) in
  let missing :=
    (if unset "DATABASE_URL" then ["databaseUrl"] else [])
    ++ (if unset "JWT_SECRET" then ["jwtSecret"] else [])
    ++ (if unset "ENCRYPTION_KEY" then ["encryptionKey"] else []) in
  (Env.validateConfig (Env.config env) = Returns tt
   <-> unset "DATABASE_URL" = false /\ unset "JWT_SECRET" = false
       /\ unset "ENCRYPTION_KEY" = false)
  /\ (missing <> [] ->
      Env.validateConfig (Env.config env)
      = Throws ("Missing required environment variables: "
                +:+ String.concat ", " missing)).
Proof.
  intros unset missing. subst unset missing.
  unfold Env.validateConfig, Env.required.
  cbn [List.filter Env.field String.eqb Ascii.eqb Bool.eqb
       Env.config Env.databaseUrl Env.jwtSecret Env.encryptionKey].
  destruct (Env.falsy (env !! "DATABASE_URL")),
           (Env.falsy (env !! "JWT_SECRET")),
           (Env.falsy (env !! "ENCRYPTION_KEY")); cbn;
    (split; [split; [discriminate || done | intros (? & ? & ?); done] | done]).
Qed.

Lemma validateConfig_checks_required_witness :
  Env.validateConfig
    (Env.config {[ "DATABASE_URL" := "postgres://db"; "JWT_SECRET" := "" ]})
  = Throws "Missing required environment variables: jwtSecret, encryptionKey".
Proof.
  destruct (validateConfig_checks_required
              {[ "DATABASE_URL" := "postgres://db"; "JWT_SECRET" := "" ]})
    as [_ Hthrows].
  apply Hthrows. discriminate.
Defined.

Lemma empty_is_falsy (env : gmap string string) (name k : string) :
  Env.falsy (<[name := ""]> env !! k) = Env.falsy (delete name env !! k).
Proof.
  rewrite lookup_insert, lookup_delete. by case_decide.
Qed.

Lemma empty_takes_default (env : gmap string string) (name k fallback : string) :
  Env.or_default (<[name := ""]> env !! k) fallback
  = Env.or_default (delete name env !! k) fallback.
Proof.
  rewrite lookup_insert, lookup_delete. by case_decide.
Qed.

(** X17. A variable set to the empty string counts as unset: the
    configuration built with the variable empty and the one built with
    the variable removed have the same port, the same defaulted
    settings and the same cron flag, and [validateConfig] gives the
    same verdict on both. *)
Theorem empty_variable_counts_as_unset (env : gmap string string) (name : string) :
  let emptied := Env.config (<[name := ""]> env) in
  let removed := Env.config (delete name env) in
  Env.validateConfig emptied = Env.validateConfig removed
  /\ Env.port emptied = Env.port removed
  /\ Env.nodeEnv emptied = Env.nodeEnv removed
  /\ Env.jwtExpiresIn emptied = Env.jwtExpiresIn removed
  /\ Env.leetcodeGraphqlUrl emptied = Env.leetcodeGraphqlUrl removed
  /\ Env.cronEnabled emptied = Env.cronEnabled removed
  /\ Env.dailyEvaluationTime emptied = Env.dailyEvaluationTime removed
  /\ Env.corsOrigin emptied = Env.corsOrigin removed
  /\ Env.redisUrl emptied = Env.redisUrl removed.
Proof.
  intros emptied removed. subst emptied removed.
  split; [|split; [|split; [|split; [|split; [|split; [|split; [|split]]]]]]].
  - unfold Env.validateConfig, Env.required.
    cbn [List.filter Env.field String.eqb Ascii.eqb Bool.eqb
         Env.config Env.databaseUrl Env.jwtSecret Env.encryptionKey].
    by rewrite !empty_is_falsy.
  - cbn [Env.config Env.port]. rewrite empty_is_falsy.
    destruct (Env.falsy (delete name env !! "PORT")) eqn:Hport; [done|].
    rewrite lookup_insert, lookup_delete in *. by case_decide.
  - apply empty_takes_default.
  - apply empty_takes_default.
  - apply empty_takes_default.
  - cbn [Env.config Env.cronEnabled].
    rewrite lookup_insert, lookup_delete. by case_decide.
  - apply empty_takes_default.
  - apply empty_takes_default.
  - apply empty_takes_default.
Qed.
